(** * WaterRipple: the height-field simulation and the refraction pass

    A shallow embedding of [src/WaterRipple.tsx]: the two [Float32Array]
    buffers held by [rippleData.current], the solver loop, the buffer swap and
    the refraction loop of [update], and the disturbance loop of
    [handleMouseMove].

    Numbers are modelled as the code has them.
    - A JavaScript number is an IEEE-754 binary64 value: [spec_float] of the
      Standard Library with precision 53 and exponent bound 1024, every
      operation correctly rounded to nearest-even.
    - A [Float32Array] cell holds a binary32 value; a store rounds the number
      to single precision ([fround]), a load gives that value back as a
      number.  A load outside the array gives [undefined], which is NaN in
      arithmetic; a store outside the array is ignored.
    - [~~x] is the ToInt32 conversion (applied through two bitwise nots).
    - [width], [height], [rippleSize], the pointer position and every array
      index are integers ([Z]); index arithmetic on them is exact, as it is in
      binary64 below 2^53.
    - The two buffers are objects on a heap; [rippleData.current] holds two
      references to them, and the swap exchanges the references. *)

From Stdlib Require Import ZArith Lia Floats.SpecFloat.
From stdpp Require Import base option list list_numbers gmap.

Local Open Scope Z_scope.

(** ** Numbers *)

Module Num.

Definition float : Type := spec_float.

Definition prec : Z := 53.
Definition emax : Z := 1024.

Definition NaN : float := S754_nan.
Definition pzero : float := S754_zero false.

Definition fadd : float -> float -> float := SFadd prec emax.
Definition fsub : float -> float -> float := SFsub prec emax.
Definition fmul : float -> float -> float := SFmul prec emax.
Definition fdiv : float -> float -> float := SFdiv prec emax.
Definition fabs : float -> float := SFabs.
Definition fleb : float -> float -> bool := SFleb.
Definition fltb : float -> float -> bool := SFltb.

(** The number denoted by an integer literal. *)
Definition of_Z (z : Z) : float := binary_normalize prec emax z 0 false.

Definition one : float := Eval vm_compute in of_Z 1.
Definition two : float := Eval vm_compute in of_Z 2.

(** [Math.max(x, y)]: NaN when either argument is NaN, [+0] above [-0]. *)
Definition Math_max (x y : float) : float :=
  match x, y with
  | S754_zero sx, S754_zero sy => S754_zero (sx && sy)
  | _, _ =>
      match SFcompare x y with
      | None => NaN
      | Some Lt => y
      | Some _ => x
      end
  end.

(** Conversion of a number to the nearest binary32 value (ties to even),
    read back as a number: what a [Float32Array] cell holds after a store. *)
Definition fround (x : float) : float :=
  match x with
  | S754_finite s m e =>
      match binary_normalize 24 128 (cond_Zopp s (Zpos m)) e s with
      | S754_finite s' m' e' =>
          binary_normalize prec emax (cond_Zopp s' (Zpos m')) e' s'
      | r => r
      end
  | _ => x
  end.

(** The integer part of a finite number, rounding toward zero;
    [None] for NaN and the infinities. *)
Definition truncate (x : float) : option Z :=
  match x with
  | S754_zero _ => Some 0
  | S754_finite s m e =>
      Some (cond_Zopp s
              (match e with
               | Zneg k => Z.shiftr (Zpos m) (Zpos k)
               | _ => Z.shiftl (Zpos m) e
               end))
  | _ => None
  end.

(** Reduction modulo 2^32 into the signed 32-bit range. *)
Definition wrap32 (z : Z) : Z := (z + 2 ^ 31) mod 2 ^ 32 - 2 ^ 31.

(** ToInt32: NaN and the infinities give 0, any other number is truncated
    and reduced modulo 2^32. *)
Definition ToInt32 (x : float) : Z :=
  match truncate x with
  | Some z => wrap32 z
  | None => 0
  end.

(** [~n] on a 32-bit integer. *)
Definition bitnot (n : Z) : Z := wrap32 (Z.lnot n).

(** [~~x]. *)
Definition tilde_tilde (x : float) : Z := bitnot (bitnot (ToInt32 x)).

Definition is_nan (x : float) : bool :=
  match x with S754_nan => true | _ => false end.

Definition is_zero (x : float) : bool :=
  match x with S754_zero _ => true | _ => false end.

(** Neither NaN nor an infinity. *)
Definition is_finite (x : float) : bool :=
  match x with
  | S754_zero _ | S754_finite _ _ _ => true
  | _ => false
  end.

(** A zero, or a finite number whose leading binary digit lies below position
    [K]: a finite number of magnitude below [2^K]. *)
Definition bounded_by (K : Z) (x : float) : bool :=
  match x with
  | S754_zero _ => true
  | S754_finite _ m e => Zpos (digits2_pos m) + e <=? K
  | _ => false
  end.

(** The finite values of a [Float32Array] cell all lie below [2^128]. *)
Definition f32_finite (x : float) : bool := bounded_by 128 x.

(** A number of the binary64 format. *)
Definition is_binary64 (x : float) : bool := valid_binary prec emax x.

End Num.

Import Num.

(** ** Typed arrays *)

Inductive error : Type :=
  | RangeError.

(** [new Float32Array(n)].  A negative length raises a [RangeError], and so
    does a length the engine does not grant: one above the largest typed
    array it supports, or one it has no memory for.  [limit] is the largest
    length the engine grants; it differs from engine to engine and from run
    to run.  Otherwise the array has [n] cells, all [+0]. *)
Definition Float32Array_new (limit n : Z) : error + list float :=
  if (n <? 0) || (limit <? n) then inl RangeError
  else inr (replicate (Z.to_nat n) pzero).

(** [a[i]] used as a number. *)
Definition f32_get (a : list float) (i : Z) : float :=
  if 0 <=? i then default NaN (a !! Z.to_nat i) else NaN.

(** [a[i] = v]. *)
Definition f32_set (a : list float) (i : Z) (v : float) : list float :=
  if 0 <=? i then <[Z.to_nat i := fround v]> a else a.

(** [d[i]] of a [Uint8ClampedArray]; [None] is [undefined]. *)
Definition u8_get (d : list Z) (i : Z) : option Z :=
  if 0 <=? i then d !! Z.to_nat i else None.

(** The byte stored for a value read from another byte array or for an
    integer literal: [undefined] is stored as 0, integers are clamped. *)
Definition u8_clamp (v : option Z) : Z :=
  match v with
  | None => 0
  | Some b => Z.max 0 (Z.min 255 b)
  end.

(** [d[i] = v]. *)
Definition u8_set (d : list Z) (i : Z) (v : option Z) : list Z :=
  if 0 <=? i then <[Z.to_nat i := u8_clamp v]> d else d.

(** [ctx.createImageData(w, h).data]: transparent black. *)
Definition createImageData (w h : Z) : list Z :=
  replicate (Z.to_nat (4 * (Z.abs w * Z.abs h))) 0.

(** ** Integers as numbers *)

(** The binary64 number that is the integer [n], for [n] of magnitude below
    2^53: the magnitude shifted to 53 binary digits, and the exponent that
    undoes the shift. *)
Definition integer (n : Z) : float :=
  match n with
  | 0 => pzero
  | _ => S754_finite (n <? 0) (Z.to_pos (Z.abs n * 2 ^ (53 - Zdigits2 n)))
           (Zdigits2 n - 53)
  end.

(** The cell a number used as the key of a typed array names: the number
    itself when it is an integer, no cell at all otherwise (NaN, an
    infinity, a fraction). *)
Definition array_index (v : float) : option Z :=
  match truncate v with
  | Some z => if SFeqb (of_Z z) v then Some z else None
  | None => None
  end.

(** ** Component properties and state *)

Record props : Type := mkProps {
  width : Z;
  height : Z;
  rippleSize : Z;
  strength : float;
  viscosity : float;
  speed : float
}.

Definition loc : Type := positive.

(** The heap of buffers together with the two references of
    [rippleData.current]. *)
Record store : Type := mkStore {
  arrays : gmap loc (list float);
  buffer1 : loc;
  buffer2 : loc
}.

Definition array_at (st : store) (l : loc) : list float :=
  default [] (arrays st !! l).

(** [b[i]] for the buffer referenced by [l]. *)
Definition f32_read (st : store) (l : loc) (i : Z) : float :=
  f32_get (array_at st l) i.

(** [b[i] = v] for the buffer referenced by [l]: the buffer is updated in
    place, whoever else holds a reference to it sees the new cell. *)
Definition f32_write (st : store) (l : loc) (i : Z) (v : float) : store :=
  match arrays st !! l with
  | Some a =>
      {| arrays := <[l := f32_set a i v]> (arrays st);
         buffer1 := buffer1 st;
         buffer2 := buffer2 st |}
  | None => st
  end.

(** [for (let i = lo; i < hi; i++) body]. *)
Definition for_range {S : Type} (lo hi : Z) (body : Z -> S -> S) (s : S) : S :=
  foldl (fun acc i => body i acc) s (seqZ lo (hi - lo)).

(** ** [img.onload], lines 43-47: allocation of the two buffers

    Two calls of the array constructor and the assignment to
    [rippleData.current]; the canvas calls that follow in [img.onload] are
    outside this model.  [limit] is the largest length of which the engine
    grants the two buffers: when either constructor call raises, the
    exception leaves [img.onload] before [rippleData.current] is assigned. *)

Definition create_on (limit : Z) (p : props) : error + store :=
  let size := width p * height p in
  match Float32Array_new limit size with
  | inl e => inl e
  | inr a1 =>
      match Float32Array_new limit size with
      | inl e => inl e
      | inr a2 =>
          inr {| arrays := <[2%positive := a2]> (<[1%positive := a1]> ∅);
                 buffer1 := 1%positive;
                 buffer2 := 2%positive |}
      end
  end.

(** The allocation on an engine that grants the length asked for: what
    [create_on] returns whenever it returns buffers at all
    ([create_on_granted] below). *)
Definition create (p : props) : error + store :=
  create_on (width p * height p) p.

(** ** [update], lines 57-69: one solver pass *)

(** The value assigned to [buffer2[i]]. *)
Definition wave (p : props) (st : store) (b1 b2 : loc) (i : Z) : float :=
  let s := Math_max two (speed p) in
  let damping := fsub one (viscosity p) in
  fmul
    (fsub
       (fdiv
          (fadd
             (fadd
                (fadd (f32_read st b1 (i - 1)) (f32_read st b1 (i + 1)))
                (f32_read st b1 (i - width p)))
             (f32_read st b1 (i + width p)))
          s)
       (f32_read st b2 i))
    damping.

Definition solve (p : props) (st : store) : store :=
  let b1 := buffer1 st in
  let b2 := buffer2 st in
  let size := width p * height p in
  for_range (width p) (size - width p)
    (fun i acc => f32_write acc b2 i (wave p acc b1 b2 i)) st.

(** ** [update], lines 72-73: the swap *)

Definition assign_buffers (st : store) (n1 n2 : loc) : store :=
  {| arrays := arrays st; buffer1 := n1; buffer2 := n2 |}.

Definition swap (st : store) : store :=
  assign_buffers st (buffer2 st) (buffer1 st).

(** ** [update], lines 75-95: the refraction pass

    [c] is the local [buffer1] of [update]: the buffer the solver has just
    read, not the one it has just written. *)

Definition xOffset (st : store) (c : loc) (i : Z) : Z :=
  tilde_tilde (fsub (f32_read st c (i - 1)) (f32_read st c (i + 1))).

Definition yOffset (p : props) (st : store) (c : loc) (i : Z) : Z :=
  tilde_tilde (fsub (f32_read st c (i - width p)) (f32_read st c (i + width p))).

Definition render_pixel (p : props) (st : store) (c : loc) (img : list Z)
    (i : Z) (output : list Z) : list Z :=
  let size := width p * height p in
  let xo := xOffset st c i in
  let yo := yOffset p st c i in
  if negb (xo =? 0) || negb (yo =? 0) then
    let reload := i + xo + yo * width p in
    let finalIdx := Z.max 0 (Z.min (size - 1) reload) in
    let o1 := u8_set output (i * 4) (u8_get img (finalIdx * 4)) in
    let o2 := u8_set o1 (i * 4 + 1) (u8_get img (finalIdx * 4 + 1)) in
    let o3 := u8_set o2 (i * 4 + 2) (u8_get img (finalIdx * 4 + 2)) in
    u8_set o3 (i * 4 + 3) (Some 255)
  else
    let o1 := u8_set output (i * 4) (u8_get img (i * 4)) in
    let o2 := u8_set o1 (i * 4 + 1) (u8_get img (i * 4 + 1)) in
    let o3 := u8_set o2 (i * 4 + 2) (u8_get img (i * 4 + 2)) in
    u8_set o3 (i * 4 + 3) (Some 255).

Definition render (p : props) (st : store) (c : loc) (img : list Z) : list Z :=
  let size := width p * height p in
  for_range 0 size (render_pixel p st c img)
    (createImageData (width p) (height p)).

(** ** [update]: one frame *)

Definition update (p : props) (img : list Z) (st : store) : store * list Z :=
  let b1 := buffer1 st in
  let b2 := buffer2 st in
  let st1 := solve p st in
  let st2 := assign_buffers st1 b2 b1 in
  (st2, render p st2 b1 img).

(** The state after [n] frames with no pointer event in between. *)
Fixpoint frames (p : props) (img : list Z) (n : nat) (st : store) : store :=
  match n with
  | O => st
  | S k => fst (update p img (frames p img k st))
  end.

(** ** [handleMouseMove], lines 117-126: the disturbance

    [x] and [y] are the buffer coordinates computed from the pointer event. *)

Definition inject (p : props) (st : store) (x y : Z) : store :=
  let b1 := buffer1 st in
  for_range (y - rippleSize p) (y + rippleSize p)
    (fun j acc =>
       for_range (x - rippleSize p) (x + rippleSize p)
         (fun k acc' =>
            if (0 <=? j) && (j <? height p) && (0 <=? k) && (k <? width p)
            then f32_write acc' b1 (j * width p + k) (strength p)
            else acc')
         acc)
    st.

(** The same two loops with their counters as the numbers they are.

    [for (let k = lo; k < hi; k++) body]: the counter is a binary64 number,
    [k++] adds 1 to it with rounding, and the test compares numbers.  The
    result is [None] when the loop has not ended within [fuel] tests of its
    condition. *)
Fixpoint for_number {A : Type} (fuel : nat) (k hi : float)
    (body : float -> A -> option A) (s : A) : option A :=
  match fuel with
  | O => None
  | S fuel' =>
      if fltb k hi then
        match body k s with
        | Some s' => for_number fuel' (fadd k one) hi body s'
        | None => None
        end
      else Some s
  end.

Definition inject_numbers (fuel : nat) (p : props) (st : store) (x y : Z)
    : option store :=
  let b1 := buffer1 st in
  let r := of_Z (rippleSize p) in
  for_number fuel (fsub (of_Z y) r) (fadd (of_Z y) r)
    (fun j acc =>
       for_number fuel (fsub (of_Z x) r) (fadd (of_Z x) r)
         (fun k acc' =>
            Some
              (if fleb pzero j && fltb j (of_Z (height p))
                  && fleb pzero k && fltb k (of_Z (width p))
               then
                 match array_index (fadd (fmul j (of_Z (width p))) k) with
                 | Some q => f32_write acc' b1 q (strength p)
                 | None => acc'
                 end
               else acc'))
         acc)
    st.

(** Where the two agree ([inject_numbers_exact] below): the pointer cell is
    a pair of 32-bit integers, as [~~] gives them, the radius is at most 2^52
    in magnitude and the field has fewer than 2^53 cells.  Every value the
    counters and the index [j * width + k] take is then an integer of
    magnitude below 2^53, which binary64 holds exactly.  For a larger radius
    [k + 1] may round back to [k], and the loop of the source never ends
    ([inject_numbers_vast] below). *)
Definition counters_exact (p : props) (x y : Z) : Prop :=
  (- 2 ^ 31 <= x < 2 ^ 31 /\ - 2 ^ 31 <= y < 2 ^ 31)
  /\ - 2 ^ 52 <= rippleSize p <= 2 ^ 52
  /\ (- 2 ^ 53 < width p < 2 ^ 53 /\ - 2 ^ 53 < height p < 2 ^ 53)
  /\ width p * height p < 2 ^ 53.

(** [handleMouseMove] does nothing until the buffers exist. *)
Definition handleMouseMove (p : props) (rd : option store) (x y : Z)
    : option store :=
  match rd with
  | None => None
  | Some st => Some (inject p st x y)
  end.

(** ** Well-formed states *)

(** The buffer referenced by [l] exists and has [n] cells. *)
Definition allocated (st : store) (l : loc) (n : nat) : Prop :=
  exists a, arrays st !! l = Some a /\ length a = n.

(** What [create] establishes and every operation keeps: two distinct buffers
    of [width * height] cells each. *)
Record wf (p : props) (st : store) : Prop := mkWf {
  wf_distinct : buffer1 st <> buffer2 st;
  wf_buffer1 : allocated st (buffer1 st) (Z.to_nat (width p * height p));
  wf_buffer2 : allocated st (buffer2 st) (Z.to_nat (width p * height p))
}.

(** The image handed to the refraction pass: four bytes per pixel. *)
Record img_ok (p : props) (img : list Z) : Prop := mkImgOk {
  img_length : length img = Z.to_nat (4 * (width p * height p));
  img_bytes : Forall (fun b => 0 <= b <= 255) img
}.

(** The index the refraction pass reads the source image at for pixel [i]. *)
Definition sampleIndex (p : props) (st : store) (c : loc) (i : Z) : Z :=
  let xo := xOffset st c i in
  let yo := yOffset p st c i in
  if negb (xo =? 0) || negb (yo =? 0)
  then Z.max 0 (Z.min (width p * height p - 1) (i + xo + yo * width p))
  else i.

(** The sum of the absolute amplitudes of a buffer, accumulated left to
    right. *)
Definition sum_abs (a : list float) : float :=
  foldl (fun acc x => fadd acc (fabs x)) pzero a.

(** The sum of absolute amplitudes of the current buffer after [n] frames. *)
Definition amplitude_sum (p : props) (img : list Z) (st : store) (n : nat) : float :=
  let st' := frames p img n st in
  sum_abs (array_at st' (buffer1 st')).

(** The same sum taken over both buffers. *)
Definition field_sum (p : props) (img : list Z) (st : store) (n : nat) : float :=
  let st' := frames p img n st in
  fadd (sum_abs (array_at st' (buffer1 st'))) (sum_abs (array_at st' (buffer2 st'))).

(** Every cell of both buffers is a zero. *)
Definition zero_field (st : store) : Prop :=
  Forall (fun x => is_zero x = true) (array_at st (buffer1 st)) /\
  Forall (fun x => is_zero x = true) (array_at st (buffer2 st)).

(** The solver loop over an explicit list of indices. *)
Definition solve_pass (p : props) (b1 b2 : loc) (l : list Z) (st : store) : store :=
  foldl (fun acc i => f32_write acc b2 i (wave p acc b1 b2 i)) st l.

(** The four stores of one iteration of the refraction loop, reading the
    source pixel [k]. *)
Definition write_pixel (img output : list Z) (i k : Z) : list Z :=
  let o1 := u8_set output (i * 4) (u8_get img (k * 4)) in
  let o2 := u8_set o1 (i * 4 + 1) (u8_get img (k * 4 + 1)) in
  let o3 := u8_set o2 (i * 4 + 2) (u8_get img (k * 4 + 2)) in
  u8_set o3 (i * 4 + 3) (Some 255).

(** The refraction loop over an explicit list of pixels. *)
Definition render_pass (p : props) (st : store) (c : loc) (img : list Z)
    (l : list Z) (output : list Z) : list Z :=
  foldl (fun acc i => render_pixel p st c img i acc) output l.

(** The red, green and blue bytes of pixel [i]. *)
Definition rgb (d : list Z) (i : Z) : list (option Z) :=
  [u8_get d (i * 4); u8_get d (i * 4 + 1); u8_get d (i * 4 + 2)].

(** The alpha byte of pixel [i]. *)
Definition alpha (d : list Z) (i : Z) : option Z := u8_get d (i * 4 + 3).

(** ** Configurations and inputs of the examples *)

(** The default viscosity, 0.04. *)
Definition default_viscosity : float :=
  Eval vm_compute in fdiv (of_Z 4) (of_Z 100).

(** A limit that engines have had: arrays of at most 2^32 - 1 cells. *)
Definition typical_limit : Z := 2 ^ 32 - 1.

(** The state [img.onload] leaves when the allocation succeeds (no buffer at
    all when it raises). *)
Definition loaded (p : props) : store :=
  match create p with
  | inr st => st
  | inl _ => {| arrays := ∅; buffer1 := 1%positive; buffer2 := 1%positive |}
  end.

(** A source image whose byte at position [k] is [k mod 256]: no two pixels
    of a small image are alike. *)
Definition test_image (p : props) : list Z :=
  (fun k => k `mod` 256) <$> seqZ 0 (4 * (width p * height p)).

(** A 4x4 field, disturbance of radius 1 and strength 100, default viscosity
    and speed. *)
Definition grid4 : props :=
  {| width := 4; height := 4; rippleSize := 1; strength := of_Z 100;
     viscosity := default_viscosity; speed := two |}.

(** [grid4] after a pointer event at (1, 1). *)
Definition grid4_disturbed : store := inject grid4 (loaded grid4) 1 1.

(** A field of no width. *)
Definition empty_grid : props :=
  {| width := 0; height := 5; rippleSize := 4; strength := of_Z 512;
     viscosity := default_viscosity; speed := two |}.

(** [grid4] with a radius of 2^54. *)
Definition vast : props :=
  {| width := 4; height := 4; rippleSize := 2 ^ 54; strength := of_Z 100;
     viscosity := default_viscosity; speed := two |}.

(** A field with a radius of zero. *)
Definition grid4_radius0 : props :=
  {| width := 4; height := 4; rippleSize := 0; strength := of_Z 100;
     viscosity := default_viscosity; speed := two |}.

(** A 3x3 field with a disturbance of strength 2^31. *)
Definition grid3_strong : props :=
  {| width := 3; height := 3; rippleSize := 1; strength := of_Z (2 ^ 31);
     viscosity := default_viscosity; speed := two |}.

(** [grid3_strong] after a pointer event at (1, 1). *)
Definition grid3_strong_disturbed : store :=
  inject grid3_strong (loaded grid3_strong) 1 1.

(** A 3x3 field with viscosity 1 and a disturbance of strength 2^128, a
    number above every finite single-precision value. *)
Definition grid3_viscous : props :=
  {| width := 3; height := 3; rippleSize := 1; strength := of_Z (2 ^ 128);
     viscosity := one; speed := two |}.

(** [grid3_viscous] after a pointer event at (1, 1). *)
Definition grid3_viscous_disturbed : store :=
  inject grid3_viscous (loaded grid3_viscous) 1 1.

(** [grid4] with viscosity 1. *)
Definition grid4_viscous : props :=
  {| width := 4; height := 4; rippleSize := 1; strength := of_Z 100;
     viscosity := one; speed := two |}.

(** A field one cell wide and three cells high, viscosity 0, speed 2. *)
Definition column3 : props :=
  {| width := 1; height := 3; rippleSize := 1; strength := of_Z 512;
     viscosity := pzero; speed := two |}.

(** [column3] after a pointer event at (0, 0): the top cell of the current
    buffer holds 512. *)
Definition column3_disturbed : store := inject column3 (loaded column3) 0 0.

(** The number 0.5. *)
Definition half : float := Eval vm_compute in fdiv one two.

(** The same field with viscosity 0.5. *)
Definition column3_damped : props :=
  {| width := 1; height := 3; rippleSize := 1; strength := of_Z 512;
     viscosity := half; speed := two |}.

Definition column3_damped_disturbed : store :=
  inject column3_damped (loaded column3_damped) 0 0.

(** [grid4] with viscosity 0.5, and a pointer event at (2, 2): the four
    cells 5, 6, 9 and 10 in the middle of the field hold 100, the first and
    the last row are untouched. *)
Definition grid4_damped : props :=
  {| width := 4; height := 4; rippleSize := 1; strength := of_Z 100;
     viscosity := half; speed := two |}.

Definition grid4_damped_centre : store :=
  inject grid4_damped (loaded grid4_damped) 2 2.

(** A field one cell wide and four cells high with the default viscosity and
    speed, and a pointer event at (0, 2): the two middle cells hold 100, the
    first and the last row are untouched. *)
Definition column4 : props :=
  {| width := 1; height := 4; rippleSize := 1; strength := of_Z 100;
     viscosity := default_viscosity; speed := two |}.

Definition column4_disturbed : store := inject column4 (loaded column4) 0 2.

(** [column4_disturbed] after 5180 frames. *)
Definition column4_settled : store :=
  Eval vm_compute in
    frames column4 (test_image column4) (Z.to_nat 5180) column4_disturbed.

(** ** The refraction offsets in the words of the specification *)

(** The offset of the specification: the difference truncated toward zero
    (0 where the difference has no integer part at all). *)
Definition spec_offset (d : float) : Z := default 0 (truncate d).

(** The sample index of the specification for pixel [i], over the buffer
    referenced by [c]. *)
Definition spec_sampleIndex (p : props) (st : store) (c : loc) (i : Z) : Z :=
  let xo := spec_offset (fsub (f32_read st c (i - 1)) (f32_read st c (i + 1))) in
  let yo :=
    spec_offset (fsub (f32_read st c (i - width p)) (f32_read st c (i + width p))) in
  if (xo =? 0) && (yo =? 0) then i
  else Z.max 0 (Z.min (width p * height p - 1) (i + xo + yo * width p)).

(** ** [img.onload], lines 42-99: allocation followed by the first frame

    [img] is the pixel data [getImageData] has returned for the drawn image. *)

Definition onload (p : props) (img : list Z) : error + (store * list Z) :=
  match create p with
  | inl e => inl e
  | inr st => inr (update p img st)
  end.

(** ** [handleMouseMove], lines 104-115: from the pointer event to a cell *)

(** [canvas.getBoundingClientRect()]. *)
Record DOMRect : Type := mkRect {
  rect_left : float;
  rect_top : float;
  rect_width : float;
  rect_height : float
}.

Record MouseEvent : Type := mkMouseEvent {
  clientX : float;
  clientY : float
}.

(** [~~((e.clientX - rect.left) * scaleX)] with [scaleX = width / rect.width]. *)
Definition pointer_x (p : props) (rect : DOMRect) (e : MouseEvent) : Z :=
  let scaleX := fdiv (of_Z (width p)) (rect_width rect) in
  tilde_tilde (fmul (fsub (clientX e) (rect_left rect)) scaleX).

(** [~~((e.clientY - rect.top) * scaleY)] with [scaleY = height / rect.height]. *)
Definition pointer_y (p : props) (rect : DOMRect) (e : MouseEvent) : Z :=
  let scaleY := fdiv (of_Z (height p)) (rect_height rect) in
  tilde_tilde (fmul (fsub (clientY e) (rect_top rect)) scaleY).

(** The whole handler: nothing happens while [rippleData.current] or the
    canvas is missing; [canvas] is the layout rectangle of the canvas when
    there is one. *)
Definition onMouseMove (p : props) (rd : option store) (canvas : option DOMRect)
    (e : MouseEvent) : option store :=
  match rd with
  | None => None
  | Some st =>
      match canvas with
      | None => Some st
      | Some rect => Some (inject p st (pointer_x p rect e) (pointer_y p rect e))
      end
  end.

(** ** Frames and pointer events in any order *)

Inductive event : Type :=
  | Frame
  | PointerMove (x y : Z).

Definition step (p : props) (img : list Z) (st : store) (ev : event) : store :=
  match ev with
  | Frame => fst (update p img st)
  | PointerMove x y => inject p st x y
  end.

Definition run (p : props) (img : list Z) (st : store) (evs : list event) : store :=
  foldl (step p img) st evs.

(** The cell [i] lies in the rows the solver loop visits. *)
Definition interior (p : props) (i : Z) : Prop :=
  width p <= i < width p * height p - width p.

(** The cell [(cx, cy)] lies in the square a pointer event at [(x, y)]
    disturbs. *)
Definition in_square (p : props) (x y cx cy : Z) : Prop :=
  y - rippleSize p <= cy < y + rippleSize p /\
  x - rippleSize p <= cx < x + rippleSize p.

(** [grid4] with another radius and strength, as after a change of the
    [rippleSize] and [strength] properties. *)
Definition grid4_stronger : props :=
  {| width := 4; height := 4; rippleSize := 2; strength := of_Z 300;
     viscosity := default_viscosity; speed := two |}.

(** [grid4] with a speed that is not a number. *)
Definition grid4_nan_speed : props :=
  {| width := 4; height := 4; rippleSize := 1; strength := of_Z 100;
     viscosity := default_viscosity; speed := NaN |}.

(** [grid4] with viscosity 0.5 and speed 8. *)
Definition grid4_thick : props :=
  {| width := 4; height := 4; rippleSize := 1; strength := of_Z 100;
     viscosity := half; speed := of_Z 8 |}.

(** [grid4_disturbed] with another scratch buffer: the cell 5 of the scratch
    buffer holds 7. *)
Definition grid4_scratched : store :=
  f32_write grid4_disturbed (buffer2 grid4_disturbed) 5 (of_Z 7).

(** A canvas laid out with no width, and a pointer event. *)
Definition collapsed_rect : DOMRect :=
  {| rect_left := of_Z 8; rect_top := of_Z 8;
     rect_width := pzero; rect_height := of_Z 4 |}.

Definition pointer_event : MouseEvent :=
  {| clientX := of_Z 10; clientY := of_Z 11 |}.

(** The canvas of [grid4] laid out at its own size, 4 by 4. *)
Definition natural_rect : DOMRect :=
  {| rect_left := of_Z 8; rect_top := of_Z 8;
     rect_width := of_Z 4; rect_height := of_Z 4 |}.

(** A field of one cell, and two one-pixel images that differ in alpha. *)
Definition grid1 : props :=
  {| width := 1; height := 1; rippleSize := 1; strength := of_Z 100;
     viscosity := default_viscosity; speed := two |}.

Definition pixel_opaque : list Z := [10; 20; 30; 255].

Definition pixel_transparent : list Z := [10; 20; 30; 0].

(** * Properties *)

(** ** Arrays *)

Section Arrays.

Implicit Types (a : list float) (d : list Z) (i j : Z).

Lemma length_f32_set a i v : length (f32_set a i v) = length a.
Proof. unfold f32_set. destruct (0 <=? i); [apply length_insert | done]. Qed.

Lemma f32_get_set_eq a i v :
  0 <= i -> (Z.to_nat i < length a)%nat ->
  f32_get (f32_set a i v) i = fround v.
Proof.
  intros Hi Hlen. unfold f32_get, f32_set.
  destruct (Z.leb_spec 0 i); [|lia].
  by rewrite list_lookup_insert_eq.
Qed.

Lemma f32_get_set_ne a i j v : i <> j -> f32_get (f32_set a i v) j = f32_get a j.
Proof.
  intros Hne. unfold f32_get, f32_set.
  destruct (Z.leb_spec 0 i), (Z.leb_spec 0 j); try done.
  rewrite list_lookup_insert_ne; [done | lia].
Qed.

Lemma f32_set_out_of_range a i v :
  i < 0 \/ (length a <= Z.to_nat i)%nat -> f32_set a i v = a.
Proof.
  intros H. unfold f32_set. destruct (Z.leb_spec 0 i); [|done].
  apply list_insert_ge. lia.
Qed.

Lemma f32_get_out_of_range a i :
  i < 0 \/ (length a <= Z.to_nat i)%nat -> f32_get a i = NaN.
Proof.
  intros H. unfold f32_get. destruct (Z.leb_spec 0 i); [|done].
  rewrite lookup_ge_None_2; [done | lia].
Qed.

Lemma length_u8_set d i v : length (u8_set d i v) = length d.
Proof. unfold u8_set. destruct (0 <=? i); [apply length_insert | done]. Qed.

Lemma u8_get_set_eq d i v :
  0 <= i -> (Z.to_nat i < length d)%nat ->
  u8_get (u8_set d i v) i = Some (u8_clamp v).
Proof.
  intros Hi Hlen. unfold u8_get, u8_set.
  destruct (Z.leb_spec 0 i); [|lia].
  by rewrite list_lookup_insert_eq.
Qed.

Lemma u8_get_set_ne d i j v : i <> j -> u8_get (u8_set d i v) j = u8_get d j.
Proof.
  intros Hne. unfold u8_get, u8_set.
  destruct (Z.leb_spec 0 i), (Z.leb_spec 0 j); try done.
  rewrite list_lookup_insert_ne; [done | lia].
Qed.

(** A byte of a well-formed image is stored unchanged. *)
Lemma u8_clamp_byte d i :
  Forall (fun b => 0 <= b <= 255) d ->
  0 <= i -> (Z.to_nat i < length d)%nat ->
  Some (u8_clamp (u8_get d i)) = u8_get d i.
Proof.
  intros Hd Hi Hlen. unfold u8_get. destruct (Z.leb_spec 0 i); [|lia].
  destruct (lookup_lt_is_Some_2 d (Z.to_nat i) Hlen) as [b Hb].
  rewrite Hb. simpl. f_equal.
  rewrite Forall_lookup in Hd. specialize (Hd _ _ Hb). lia.
Qed.

Lemma length_createImageData w h :
  length (createImageData w h) = Z.to_nat (4 * (Z.abs w * Z.abs h)).
Proof. apply length_replicate. Qed.

End Arrays.

(** ** The heap *)

Section Heap.

Implicit Types (st : store) (l : loc) (i j : Z).

Lemma buffer1_f32_write st l i v : buffer1 (f32_write st l i v) = buffer1 st.
Proof. unfold f32_write. by destruct (arrays st !! l). Qed.

Lemma buffer2_f32_write st l i v : buffer2 (f32_write st l i v) = buffer2 st.
Proof. unfold f32_write. by destruct (arrays st !! l). Qed.

Lemma array_at_f32_write_eq st l i v :
  array_at (f32_write st l i v) l = f32_set (array_at st l) i v.
Proof.
  unfold f32_write, array_at. destruct (arrays st !! l) as [a|] eqn:Ha; simpl.
  - by rewrite lookup_insert_eq.
  - rewrite Ha. simpl. unfold f32_set. by destruct (0 <=? i).
Qed.

Lemma array_at_f32_write_ne st l l' i v :
  l <> l' -> array_at (f32_write st l i v) l' = array_at st l'.
Proof.
  intros Hne. unfold f32_write, array_at.
  destruct (arrays st !! l); simpl; [|done].
  by rewrite lookup_insert_ne.
Qed.

Lemma allocated_f32_write st l l' i v n :
  allocated st l' n -> allocated (f32_write st l i v) l' n.
Proof.
  intros [a [Ha Hn]]. unfold allocated, f32_write.
  destruct (arrays st !! l) as [b|] eqn:Hb; simpl; [|eauto].
  destruct (decide (l = l')) as [->|Hne].
  - rewrite lookup_insert_eq. eexists; split; [done|].
    rewrite length_f32_set. congruence.
  - rewrite lookup_insert_ne by done. eauto.
Qed.

Lemma allocated_length st l n : allocated st l n -> length (array_at st l) = n.
Proof. intros [a [Ha Hn]]. unfold array_at. by rewrite Ha. Qed.

Lemma f32_read_write_ne_loc st l l' i j v :
  l <> l' -> f32_read (f32_write st l i v) l' j = f32_read st l' j.
Proof. intros. unfold f32_read. by rewrite array_at_f32_write_ne. Qed.

Lemma f32_read_write_ne st l i j v :
  i <> j -> f32_read (f32_write st l i v) l j = f32_read st l j.
Proof.
  intros. unfold f32_read. rewrite array_at_f32_write_eq.
  by apply f32_get_set_ne.
Qed.

Lemma f32_read_write_eq st l i v n :
  allocated st l n -> 0 <= i -> (Z.to_nat i < n)%nat ->
  f32_read (f32_write st l i v) l i = fround v.
Proof.
  intros Hal Hi Hlt. unfold f32_read. rewrite array_at_f32_write_eq.
  apply f32_get_set_eq; [done|]. by rewrite (allocated_length _ _ _ Hal).
Qed.

Lemma f32_write_out_of_range st l i v n :
  allocated st l n -> i < 0 \/ (n <= Z.to_nat i)%nat ->
  f32_write st l i v = st.
Proof.
  intros [a [Ha Hn]] Hout. unfold f32_write. rewrite Ha.
  rewrite f32_set_out_of_range by lia.
  rewrite insert_id by done. by destruct st.
Qed.

End Heap.

(** ** Loops *)

Lemma for_range_empty {S : Type} lo hi (body : Z -> S -> S) s :
  hi <= lo -> for_range lo hi body s = s.
Proof. intros H. unfold for_range. by rewrite seqZ_nil by lia. Qed.

(** A property kept by every iteration holds after the loop. *)
Lemma for_range_invariant {S : Type} (P : S -> Prop) lo hi (body : Z -> S -> S) s :
  (forall i acc, lo <= i < hi -> P acc -> P (body i acc)) ->
  P s -> P (for_range lo hi body s).
Proof.
  intros Hstep. unfold for_range.
  assert (Hin : forall i, i ∈ seqZ lo (hi - lo) -> lo <= i < hi)
    by (intros i Hi; apply elem_of_seqZ in Hi; lia).
  revert s Hin. induction (seqZ lo (hi - lo)) as [|i l IH]; intros s Hin Hs.
  - done.
  - simpl. apply IH.
    + intros k Hk. apply Hin. by right.
    + apply Hstep; [apply Hin; by left | done].
Qed.

(** ** The solver pass *)

Section Solve.

Variable p : props.
Variables b1 b2 : loc.
Hypothesis Hdistinct : b1 <> b2.

Local Abbreviation pass := (solve_pass p b1 b2).

Lemma wave_ext st st' i :
  array_at st b1 = array_at st' b1 ->
  f32_read st b2 i = f32_read st' b2 i ->
  wave p st b1 b2 i = wave p st' b1 b2 i.
Proof. intros H1 H2. unfold wave, f32_read in *. by rewrite H1, H2. Qed.

Lemma solve_pass_fields l st :
  buffer1 (pass l st) = buffer1 st /\ buffer2 (pass l st) = buffer2 st.
Proof.
  revert st. induction l as [|i l IH]; intros st; [done|].
  simpl. destruct (IH (f32_write st b2 i (wave p st b1 b2 i))) as [-> ->].
  by rewrite buffer1_f32_write, buffer2_f32_write.
Qed.

(** Only the scratch buffer is written. *)
Lemma solve_pass_other l st l' : l' <> b2 -> array_at (pass l st) l' = array_at st l'.
Proof.
  intros Hne. revert st. induction l as [|i l IH]; intros st; [done|].
  simpl. rewrite IH. by apply array_at_f32_write_ne.
Qed.

Lemma solve_pass_allocated l st l' n : allocated st l' n -> allocated (pass l st) l' n.
Proof.
  revert st. induction l as [|i l IH]; intros st Hal; [done|].
  simpl. apply IH. by apply allocated_f32_write.
Qed.

(** A cell the loop does not visit keeps its value. *)
Lemma solve_pass_unvisited l st j : j ∉ l -> f32_read (pass l st) b2 j = f32_read st b2 j.
Proof.
  revert st. induction l as [|i l IH]; intros st Hj; [done|].
  apply not_elem_of_cons in Hj as [Hne Hj].
  simpl. rewrite IH by done.
  by apply f32_read_write_ne.
Qed.

(** A cell the loop visits once receives the value computed from the state
    before the loop: the loop reads the other buffer and, of the scratch
    buffer, only the cell it is about to overwrite. *)
Lemma solve_pass_visited l st j n :
  allocated st b2 n -> NoDup l -> j ∈ l ->
  0 <= j -> (Z.to_nat j < n)%nat ->
  f32_read (pass l st) b2 j = fround (wave p st b1 b2 j).
Proof.
  intros Hal Hnd. revert st Hal.
  induction Hnd as [|i l Hi Hnd IH]; intros st Hal Hj H0 Hn.
  - by apply elem_of_nil in Hj.
  - simpl. apply elem_of_cons in Hj as [->|Hj].
    + rewrite solve_pass_unvisited by done.
      by apply (f32_read_write_eq _ _ _ _ n).
    + assert (i <> j) by (intros ->; done).
      rewrite IH; [|by apply allocated_f32_write|done..].
      f_equal. symmetry. apply wave_ext.
      * symmetry. by apply array_at_f32_write_ne.
      * symmetry. by apply f32_read_write_ne.
Qed.

End Solve.

Lemma solve_fields p st :
  buffer1 (solve p st) = buffer1 st /\ buffer2 (solve p st) = buffer2 st.
Proof. unfold solve, for_range. apply solve_pass_fields. Qed.

Lemma solve_current p st :
  buffer1 st <> buffer2 st ->
  array_at (solve p st) (buffer1 st) = array_at st (buffer1 st).
Proof. intros. unfold solve, for_range. by apply solve_pass_other. Qed.

Lemma solve_wf p st : wf p st -> wf p (solve p st).
Proof.
  intros [Hd H1 H2]. destruct (solve_fields p st) as [E1 E2].
  split; rewrite ?E1, ?E2; [done| |]; unfold solve, for_range;
    by apply solve_pass_allocated.
Qed.

(** A cell of the scratch buffer outside the loop range is not written. *)
Lemma solve_outside p st i :
  ~ (width p <= i < width p * height p - width p) ->
  f32_read (solve p st) (buffer2 st) i = f32_read st (buffer2 st) i.
Proof.
  intros Hi. unfold solve, for_range. apply solve_pass_unvisited.
  rewrite elem_of_seqZ. lia.
Qed.

(** A cell of the scratch buffer inside the loop range receives the value of
    the update formula on the state before the pass. *)
Lemma solve_inside p st i :
  wf p st ->
  width p <= i < width p * height p - width p ->
  0 <= i < width p * height p ->
  f32_read (solve p st) (buffer2 st) i
  = fround (wave p st (buffer1 st) (buffer2 st) i).
Proof.
  intros [Hd H1 H2] Hi Hcell. unfold solve, for_range.
  apply (solve_pass_visited p _ _ Hd _ _ _ _ H2).
  - apply NoDup_seqZ.
  - rewrite elem_of_seqZ. lia.
  - lia.
  - lia.
Qed.

(** [Math.max(x, s)] for a positive number [x] and [s] below it. *)
Lemma Math_max_below m0 e0 s :
  fltb s (S754_finite false m0 e0) = true ->
  Math_max (S754_finite false m0 e0) s = S754_finite false m0 e0.
Proof.
  unfold fltb, SFltb, Math_max.
  destruct s as [sg|sg| |sg m e]; simpl; try done.
  - by destruct sg.
  - destruct sg; [done|].
    rewrite (Z.compare_antisym e e0).
    destruct (e ?= e0) eqn:He; simpl; try done.
    change (PosDef.Pos.compare_cont Eq m0 m) with (Pos.compare_cont (CompOpp Eq) m0 m).
    rewrite <- (Pos.compare_cont_antisym m m0 Eq).
    by destruct (Pos.compare_cont Eq m m0).
Qed.

(** [Math.max(2.0, speed)] for a speed below 2. *)
Lemma Math_max_two_below s : fltb s two = true -> Math_max two s = two.
Proof. exact (Math_max_below _ _ s). Qed.

(** ** The refraction pass *)

Section Render.

Variable p : props.
Variable st : store.
Variable c : loc.
Variable img : list Z.

Local Abbreviation pass := (render_pass p st c img).

(** Both branches of the loop body perform the same four stores, reading
    the source at [sampleIndex]. *)
Lemma render_pixel_write i output :
  render_pixel p st c img i output
  = write_pixel img output i (sampleIndex p st c i).
Proof.
  unfold render_pixel, sampleIndex, write_pixel.
  by destruct (negb (xOffset st c i =? 0) || negb (yOffset p st c i =? 0)).
Qed.

Lemma length_write_pixel output i k :
  length (write_pixel img output i k) = length output.
Proof. unfold write_pixel. by rewrite !length_u8_set. Qed.

Lemma write_pixel_other output i k q :
  ~ (i * 4 <= q <= i * 4 + 3) ->
  u8_get (write_pixel img output i k) q = u8_get output q.
Proof.
  intros Hq. unfold write_pixel. rewrite !u8_get_set_ne by lia. done.
Qed.

Lemma write_pixel_rgb output i k :
  0 <= i -> (Z.to_nat (i * 4 + 3) < length output)%nat ->
  rgb (write_pixel img output i k) i
  = [Some (u8_clamp (u8_get img (k * 4)));
     Some (u8_clamp (u8_get img (k * 4 + 1)));
     Some (u8_clamp (u8_get img (k * 4 + 2)))].
Proof.
  intros Hi Hlen. unfold rgb, write_pixel.
  repeat f_equal.
  - rewrite !u8_get_set_ne by lia. apply u8_get_set_eq; lia.
  - rewrite !u8_get_set_ne by lia.
    apply u8_get_set_eq; rewrite ?length_u8_set; lia.
  - rewrite !u8_get_set_ne by lia.
    apply u8_get_set_eq; rewrite ?length_u8_set; lia.
Qed.

Lemma write_pixel_alpha output i k :
  0 <= i -> (Z.to_nat (i * 4 + 3) < length output)%nat ->
  alpha (write_pixel img output i k) i = Some 255.
Proof.
  intros Hi Hlen. unfold alpha, write_pixel.
  rewrite u8_get_set_eq; rewrite ?length_u8_set; [done|lia..].
Qed.

Lemma length_render_pass l output : length (pass l output) = length output.
Proof.
  revert output. induction l as [|i l IH]; intros output; [done|].
  change (pass (i :: l) output) with (pass l (render_pixel p st c img i output)).
  rewrite IH, render_pixel_write. apply length_write_pixel.
Qed.

(** An iteration for another pixel leaves the four bytes of pixel [j]
    alone. *)
Lemma render_pass_unvisited l output j q :
  j ∉ l -> j * 4 <= q <= j * 4 + 3 ->
  u8_get (pass l output) q = u8_get output q.
Proof.
  revert output. induction l as [|i l IH]; intros output Hj Hq; [done|].
  apply not_elem_of_cons in Hj as [Hne Hj].
  change (pass (i :: l) output) with (pass l (render_pixel p st c img i output)).
  rewrite IH by done. rewrite render_pixel_write.
  apply write_pixel_other. lia.
Qed.

Lemma render_pass_visited l output j :
  j ∈ l -> 0 <= j -> (Z.to_nat (j * 4 + 3) < length output)%nat ->
  rgb (pass l output) j
  = [Some (u8_clamp (u8_get img (sampleIndex p st c j * 4)));
     Some (u8_clamp (u8_get img (sampleIndex p st c j * 4 + 1)));
     Some (u8_clamp (u8_get img (sampleIndex p st c j * 4 + 2)))]
  /\ alpha (pass l output) j = Some 255.
Proof.
  revert output. induction l as [|i l IH]; intros output Hj H0 Hlen.
  - by apply elem_of_nil in Hj.
  - change (pass (i :: l) output) with (pass l (render_pixel p st c img i output)).
    destruct (decide (j ∈ l)) as [Hin|Hnin].
    + apply IH; [done..|].
      by rewrite render_pixel_write, length_write_pixel.
    + apply elem_of_cons in Hj as [->|Hj]; [|done].
      unfold rgb, alpha. rewrite !(render_pass_unvisited l _ i) by (done || lia).
      rewrite render_pixel_write. split.
      * by apply write_pixel_rgb.
      * by apply write_pixel_alpha.
Qed.

(** What the refraction pass leaves at pixel [i]. *)
Lemma render_pixel_value i :
  0 <= i < width p * height p ->
  rgb (render p st c img) i
  = [Some (u8_clamp (u8_get img (sampleIndex p st c i * 4)));
     Some (u8_clamp (u8_get img (sampleIndex p st c i * 4 + 1)));
     Some (u8_clamp (u8_get img (sampleIndex p st c i * 4 + 2)))]
  /\ alpha (render p st c img) i = Some 255.
Proof.
  intros Hi. unfold render, for_range. apply render_pass_visited.
  - rewrite elem_of_seqZ. lia.
  - lia.
  - rewrite length_createImageData, <- Z.abs_mul. lia.
Qed.

(** The sample index is a pixel of the image. *)
Lemma sampleIndex_range i :
  0 <= i < width p * height p ->
  0 <= sampleIndex p st c i <= width p * height p - 1.
Proof.
  intros Hi. unfold sampleIndex.
  destruct (negb (xOffset st c i =? 0) || negb (yOffset p st c i =? 0)); lia.
Qed.

(** On a well-formed image the bytes are copied unchanged. *)
Lemma render_pixel_copy i :
  img_ok p img ->
  0 <= i < width p * height p ->
  rgb (render p st c img) i = rgb img (sampleIndex p st c i)
  /\ alpha (render p st c img) i = Some 255.
Proof.
  intros [Hlen Hbytes] Hi.
  destruct (render_pixel_value i Hi) as [Hrgb Ha]. split; [|done].
  rewrite Hrgb. unfold rgb.
  pose proof (sampleIndex_range i Hi).
  rewrite !u8_clamp_byte by (done || lia). done.
Qed.

End Render.

(** A property established by iteration [i0] and kept by every iteration
    holds after the loop, whatever held before it; [Q] is an invariant the
    iterations may rely on. *)
Lemma for_range_establish {S : Type} (Q P : S -> Prop) lo hi
    (body : Z -> S -> S) s i0 :
  lo <= i0 < hi ->
  Q s ->
  (forall i acc, lo <= i < hi -> Q acc -> Q (body i acc)) ->
  (forall acc, Q acc -> P (body i0 acc)) ->
  (forall i acc, lo <= i < hi -> Q acc -> P acc -> P (body i acc)) ->
  P (for_range lo hi body s).
Proof.
  intros Hi0 Hs HQ Hat Hkeep. unfold for_range.
  assert (Hin : i0 ∈ seqZ lo (hi - lo)) by (rewrite elem_of_seqZ; lia).
  assert (Hran : forall i, i ∈ seqZ lo (hi - lo) -> lo <= i < hi)
    by (intros i Hi; apply elem_of_seqZ in Hi; lia).
  revert s Hs Hin Hran.
  induction (seqZ lo (hi - lo)) as [|i l IH]; intros s Hs Hin Hran.
  - by apply elem_of_nil in Hin.
  - simpl. destruct (decide (i0 ∈ l)) as [Hl|Hl].
    + apply IH; [|done|]; [apply HQ; [apply Hran; by left|done] |].
      intros k Hk. apply Hran. by right.
    + apply elem_of_cons in Hin as [->|Hin]; [|done].
      assert (Hkept : forall l' acc,
                 (forall k, k ∈ l' -> lo <= k < hi) -> Q acc -> P acc ->
                 P (foldl (fun acc i => body i acc) acc l')).
      { clear -HQ Hkeep. induction l' as [|k l' IH']; intros acc Hr Hq Hp; [done|].
        simpl. apply IH'.
        - intros k' Hk'. apply Hr. by right.
        - apply HQ; [apply Hr; by left | done].
        - apply Hkeep; [apply Hr; by left | done..]. }
      apply Hkept.
      * intros k Hk. apply Hran. by right.
      * apply HQ; [apply Hran; by left | done].
      * by apply Hat.
Qed.

(** A cell of the grid has one pair of coordinates only. *)
Lemma cell_index_inj w j k j' k' :
  0 <= k < w -> 0 <= k' < w -> j * w + k = j' * w + k' -> j = j' /\ k = k'.
Proof.
  intros Hk Hk' Heq.
  assert (j = j') as ->; [|lia].
  destruct (Z.lt_trichotomy j j') as [Hlt|[->|Hgt]]; [|done|]; exfalso; nia.
Qed.

(** ** The disturbance *)

Section Inject.

Variable p : props.
Variable st : store.
Variables x y : Z.

Local Abbreviation guard j k :=
  ((0 <=? j) && (j <? height p) && (0 <=? k) && (k <? width p)).

Local Abbreviation row j acc :=
  (for_range (x - rippleSize p) (x + rippleSize p)
     (fun k acc' =>
        if guard j k
        then f32_write acc' (buffer1 st) (j * width p + k) (strength p)
        else acc')
     acc).

Lemma inject_fields :
  buffer1 (inject p st x y) = buffer1 st /\
  buffer2 (inject p st x y) = buffer2 st.
Proof.
  unfold inject.
  apply (for_range_invariant
           (fun acc => buffer1 acc = buffer1 st /\ buffer2 acc = buffer2 st));
    [|done].
  intros j acc _ Hacc.
  apply (for_range_invariant
           (fun acc => buffer1 acc = buffer1 st /\ buffer2 acc = buffer2 st));
    [|done].
  intros k acc' _ Hacc'. destruct (guard j k); [|done].
  by rewrite buffer1_f32_write, buffer2_f32_write.
Qed.

(** Only the buffer referenced by [buffer1] is written. *)
Lemma inject_other l :
  l <> buffer1 st -> array_at (inject p st x y) l = array_at st l.
Proof.
  intros Hl. unfold inject.
  apply (for_range_invariant (fun acc => array_at acc l = array_at st l));
    [|done].
  intros j acc _ Hacc.
  apply (for_range_invariant (fun acc => array_at acc l = array_at st l));
    [|done].
  intros k acc' _ Hacc'. destruct (guard j k); [|done].
  by rewrite array_at_f32_write_ne.
Qed.

Lemma inject_allocated l n :
  allocated st l n -> allocated (inject p st x y) l n.
Proof.
  intros Hal. unfold inject.
  apply (for_range_invariant (fun acc => allocated acc l n)); [|done].
  intros j acc _ Hacc.
  apply (for_range_invariant (fun acc => allocated acc l n)); [|done].
  intros k acc' _ Hacc'. destruct (guard j k); [|done].
  by apply allocated_f32_write.
Qed.

(** A cell that is the target of no guarded store keeps its value. *)
Lemma inject_unwritten q :
  (forall j k,
      y - rippleSize p <= j < y + rippleSize p ->
      x - rippleSize p <= k < x + rippleSize p ->
      0 <= j < height p -> 0 <= k < width p ->
      j * width p + k <> q) ->
  f32_read (inject p st x y) (buffer1 st) q = f32_read st (buffer1 st) q.
Proof.
  intros Hq. unfold inject.
  apply (for_range_invariant
           (fun acc => f32_read acc (buffer1 st) q = f32_read st (buffer1 st) q));
    [|done].
  intros j acc Hj Hacc.
  apply (for_range_invariant
           (fun acc => f32_read acc (buffer1 st) q = f32_read st (buffer1 st) q));
    [|done].
  intros k acc' Hk Hacc'.
  destruct (guard j k) eqn:Hg; [|done].
  rewrite f32_read_write_ne; [done|].
  apply Hq; [done..| |]; lia.
Qed.

(** The target of a guarded store holds the strength afterwards: a later
    store to the same cell writes the same value again. *)
Lemma inject_written j0 k0 n :
  allocated st (buffer1 st) n ->
  y - rippleSize p <= j0 < y + rippleSize p ->
  x - rippleSize p <= k0 < x + rippleSize p ->
  0 <= j0 < height p -> 0 <= k0 < width p ->
  (Z.to_nat (j0 * width p + k0) < n)%nat ->
  f32_read (inject p st x y) (buffer1 st) (j0 * width p + k0)
  = fround (strength p).
Proof.
  intros Hal Hj0 Hk0 Hjr Hkr Hn. unfold inject.
  set (q := j0 * width p + k0) in *.
  assert (H0 : 0 <= q) by (unfold q; nia).
  set (Q := fun acc : store => allocated acc (buffer1 st) n).
  set (P := fun acc : store => f32_read acc (buffer1 st) q = fround (strength p)).
  assert (HQrow : forall j acc, Q acc -> Q (row j acc)).
  { intros j acc Hacc. apply (for_range_invariant Q); [|done].
    intros k acc' _ Hacc'. destruct (guard j k); [|done].
    by apply allocated_f32_write. }
  assert (Hstep : forall j k acc, Q acc -> P acc ->
            P (if guard j k
               then f32_write acc (buffer1 st) (j * width p + k) (strength p)
               else acc)).
  { intros j k acc Hacc Hp. destruct (guard j k); [|done].
    unfold P. destruct (decide (j * width p + k = q)) as [->|Hne].
    - by apply (f32_read_write_eq _ _ _ _ n).
    - by rewrite f32_read_write_ne. }
  assert (HQstep : forall j k acc, Q acc ->
            Q (if guard j k
               then f32_write acc (buffer1 st) (j * width p + k) (strength p)
               else acc)).
  { intros j k acc Hacc. destruct (guard j k); [|done].
    by apply allocated_f32_write. }
  apply (for_range_establish Q P _ _ _ _ j0); [done|done|auto| |].
  - intros acc Hacc.
    apply (for_range_establish Q P _ _ _ _ k0); [done|done|auto| |auto].
    intros acc' Hacc'.
    replace (guard j0 k0) with true
      by (symmetry; repeat (apply andb_true_intro; split); lia).
    by apply (f32_read_write_eq _ _ _ _ n).
  - intros j acc _ Hacc Hp.
    apply (for_range_invariant (fun a => Q a /\ P a)); [|done].
    intros k acc' _ [Hq' Hp']. auto.
Qed.

(** When no store is guarded the state is not touched at all. *)
Lemma inject_no_store :
  (forall j k,
      y - rippleSize p <= j < y + rippleSize p ->
      x - rippleSize p <= k < x + rippleSize p ->
      ~ (0 <= j < height p /\ 0 <= k < width p)) ->
  inject p st x y = st.
Proof.
  intros Hout. unfold inject.
  apply (for_range_invariant (fun acc => acc = st)); [|done].
  intros j acc Hj ->.
  apply (for_range_invariant (fun acc => acc = st)); [|done].
  intros k acc' Hk ->.
  destruct (guard j k) eqn:Hg; [|done].
  exfalso. apply (Hout j k Hj Hk).
  repeat (apply andb_prop in Hg as [Hg ?]). lia.
Qed.

End Inject.

Lemma inject_wf p st x y : wf p st -> wf p (inject p st x y).
Proof.
  intros [Hd H1 H2]. destruct (inject_fields p st x y) as [E1 E2].
  split; rewrite ?E1, ?E2; [done| |]; by apply inject_allocated.
Qed.

(** ** Allocation *)

Lemma create_on_granted limit p :
  0 <= width p * height p <= limit ->
  create_on limit p
  = inr {| arrays :=
             <[2%positive := replicate (Z.to_nat (width p * height p)) pzero]>
               (<[1%positive := replicate (Z.to_nat (width p * height p)) pzero]> ∅);
           buffer1 := 1%positive;
           buffer2 := 2%positive |}.
Proof.
  intros H. unfold create_on, Float32Array_new.
  destruct (Z.ltb_spec (width p * height p) 0); [lia|].
  by destruct (Z.ltb_spec limit (width p * height p)); [lia|].
Qed.

Lemma create_on_refused limit p :
  width p * height p < 0 \/ limit < width p * height p ->
  create_on limit p = inl RangeError.
Proof.
  intros H. unfold create_on, Float32Array_new.
  destruct (Z.ltb_spec (width p * height p) 0); [done|].
  by destruct (Z.ltb_spec limit (width p * height p)); [|lia].
Qed.

Lemma create_nonnegative p :
  0 <= width p * height p ->
  create p
  = inr {| arrays :=
             <[2%positive := replicate (Z.to_nat (width p * height p)) pzero]>
               (<[1%positive := replicate (Z.to_nat (width p * height p)) pzero]> ∅);
           buffer1 := 1%positive;
           buffer2 := 2%positive |}.
Proof. intros H. apply create_on_granted. lia. Qed.

Lemma create_negative p : width p * height p < 0 -> create p = inl RangeError.
Proof. intros H. apply create_on_refused. by left. Qed.

(** Whatever the engine's limit, buffers that [create_on] returns are the
    buffers of [create]. *)
Lemma create_on_success limit p st : create_on limit p = inr st -> create p = inr st.
Proof.
  intros H.
  destruct (Z.lt_ge_cases (width p * height p) 0) as [Hneg|Hpos].
  { rewrite create_on_refused in H by (by left). discriminate. }
  destruct (Z.lt_ge_cases limit (width p * height p)) as [Hbig|Hfit].
  { rewrite create_on_refused in H by (by right). discriminate. }
  rewrite create_on_granted in H by lia. by rewrite create_nonnegative.
Qed.

Lemma create_wf p st : create p = inr st -> wf p st.
Proof.
  destruct (Z.lt_ge_cases (width p * height p) 0) as [Hneg|Hpos].
  - by rewrite create_negative.
  - rewrite create_nonnegative by done. intros [= <-].
    split; unfold allocated; cbn [arrays buffer1 buffer2]; [done| |];
      eexists; split.
    + rewrite lookup_insert_ne by done. apply lookup_insert_eq.
    + apply length_replicate.
    + apply lookup_insert_eq.
    + apply length_replicate.
Qed.

Lemma loaded_wf p : 0 <= width p * height p -> wf p (loaded p).
Proof.
  intros H. apply create_wf. unfold loaded. by rewrite create_nonnegative.
Qed.

(** ** The swap *)

Lemma update_state p img st : fst (update p img st) = swap (solve p st).
Proof.
  unfold update, swap. simpl.
  destruct (solve_fields p st) as [-> ->]. done.
Qed.

(** ** The refraction pass: offsets and sample index *)

Lemma wrap32_range z : - 2 ^ 31 <= wrap32 z < 2 ^ 31.
Proof.
  unfold wrap32. pose proof (Z.mod_pos_bound (z + 2 ^ 31) (2 ^ 32)). lia.
Qed.

Lemma wrap32_small z : - 2 ^ 31 <= z < 2 ^ 31 -> wrap32 z = z.
Proof. intros H. unfold wrap32. rewrite Z.mod_small; lia. Qed.

Lemma bitnot_bitnot n : - 2 ^ 31 <= n < 2 ^ 31 -> bitnot (bitnot n) = n.
Proof.
  intros H. unfold bitnot, Z.lnot.
  rewrite (wrap32_small (Z.pred (- n))) by lia.
  rewrite wrap32_small by lia. lia.
Qed.

(** [~~x] is the ToInt32 conversion of [x]. *)
Lemma tilde_tilde_ToInt32 x : tilde_tilde x = ToInt32 x.
Proof.
  unfold tilde_tilde. apply bitnot_bitnot. unfold ToInt32.
  destruct (truncate x); [apply wrap32_range | lia].
Qed.

Lemma ToInt32_truncate d z :
  truncate d = Some z -> - 2 ^ 31 <= z < 2 ^ 31 -> ToInt32 d = z.
Proof. intros Hd Hz. unfold ToInt32. rewrite Hd. by apply wrap32_small. Qed.

Lemma ToInt32_not_finite d : truncate d = None -> ToInt32 d = 0.
Proof. intros Hd. unfold ToInt32. by rewrite Hd. Qed.

Lemma fsub_NaN_l x : fsub NaN x = NaN.
Proof. by destruct x. Qed.

Lemma fsub_NaN_r x : fsub x NaN = NaN.
Proof. by destruct x. Qed.

(** The refraction pass of [update] reads the buffer the solver has read. *)
Lemma update_reads_current p img st :
  buffer1 st <> buffer2 st ->
  array_at (fst (update p img st)) (buffer1 st) = array_at st (buffer1 st).
Proof. intros Hd. unfold update. simpl. by apply solve_current. Qed.

Lemma sampleIndex_ext p st st' c i :
  array_at st c = array_at st' c ->
  sampleIndex p st c i = sampleIndex p st' c i.
Proof.
  intros H. unfold sampleIndex, xOffset, yOffset, f32_read. by rewrite H.
Qed.

Lemma update_output p img st i :
  wf p st -> img_ok p img ->
  0 <= i < width p * height p ->
  rgb (snd (update p img st)) i = rgb img (sampleIndex p st (buffer1 st) i)
  /\ alpha (snd (update p img st)) i = Some 255.
Proof.
  intros [Hd _ _] Himg Hi.
  rewrite <- (sampleIndex_ext p _ _ _ i (update_reads_current p img st Hd)).
  unfold update. cbn [fst snd]. by apply render_pixel_copy.
Qed.

Lemma sampleIndex_cases p st c i :
  (xOffset st c i = 0 /\ yOffset p st c i = 0 /\ sampleIndex p st c i = i)
  \/ (~ (xOffset st c i = 0 /\ yOffset p st c i = 0) /\
      sampleIndex p st c i
      = Z.max 0 (Z.min (width p * height p - 1)
                   (i + xOffset st c i + yOffset p st c i * width p))).
Proof.
  unfold sampleIndex.
  destruct (Z.eqb_spec (xOffset st c i) 0) as [Hx|Hx];
    destruct (Z.eqb_spec (yOffset p st c i) 0) as [Hy|Hy]; simpl;
    [left; done | right; split; [lia|done] ..].
Qed.

Lemma test_image_ok p : img_ok p (test_image p).
Proof.
  split.
  - unfold test_image. by rewrite length_fmap, length_seqZ.
  - unfold test_image. apply Forall_fmap, Forall_forall. intros k _. simpl.
    pose proof (Z.mod_pos_bound k 256). lia.
Qed.

Lemma grid4_disturbed_wf : wf grid4 grid4_disturbed.
Proof. apply inject_wf, loaded_wf. simpl. lia. Qed.

(** ** Numbers: zeros *)

Lemma fadd_zero x y : is_zero x = true -> is_zero y = true -> is_zero (fadd x y) = true.
Proof. destruct x as [[]| | |], y as [[]| | |]; done. Qed.

Lemma fsub_zero x y : is_zero x = true -> is_zero y = true -> is_zero (fsub x y) = true.
Proof. destruct x as [[]| | |], y as [[]| | |]; done. Qed.

(** A number multiplied by a zero: a zero when the number is finite, NaN
    otherwise. *)
Lemma fmul_zero_r x sz :
  fmul x (S754_zero sz) = if is_finite x then fmul x (S754_zero sz) else NaN.
Proof. by destruct x. Qed.

Lemma fmul_zero_r_finite x sz :
  is_finite x = true -> is_zero (fmul x (S754_zero sz)) = true.
Proof. by destruct x. Qed.

Lemma fmul_zero_r_not_finite x sz : is_finite x = false -> fmul x (S754_zero sz) = NaN.
Proof. by destruct x. Qed.

Lemma fmul_zero_l x d : is_zero x = true -> is_finite d = true -> is_zero (fmul x d) = true.
Proof. destruct x, d; done. Qed.

Lemma fround_zero x : is_zero x = true -> is_zero (fround x) = true.
Proof. by destruct x. Qed.

Lemma fround_NaN : fround NaN = NaN.
Proof. done. Qed.

(** The larger of a positive number and a number other than NaN is neither
    zero nor NaN. *)
Lemma Math_max_positive m0 e0 s :
  is_nan s = false ->
  is_zero (Math_max (S754_finite false m0 e0) s) = false /\
  is_nan (Math_max (S754_finite false m0 e0) s) = false.
Proof.
  unfold Math_max. destruct s as [sg|sg| |sg m e]; simpl; try done.
  - by destruct sg.
  - destruct sg; [done|].
    destruct (e0 ?= e); [destruct (PosDef.Pos.compare_cont Eq m0 m)|..]; done.
Qed.

Lemma fdiv_zero_l x s :
  is_zero x = true -> is_zero s = false -> is_nan s = false ->
  is_zero (fdiv x s) = true.
Proof. destruct x, s; done. Qed.

(** The update formula over zeros gives a zero. *)
Lemma wave_zero p st b1 b2 i :
  is_zero (f32_read st b1 (i - 1)) = true ->
  is_zero (f32_read st b1 (i + 1)) = true ->
  is_zero (f32_read st b1 (i - width p)) = true ->
  is_zero (f32_read st b1 (i + width p)) = true ->
  is_zero (f32_read st b2 i) = true ->
  is_nan (speed p) = false ->
  is_finite (fsub one (viscosity p)) = true ->
  is_zero (wave p st b1 b2 i) = true.
Proof.
  intros H1 H2 H3 H4 H5 Hs Hd. unfold wave.
  apply fmul_zero_l; [|done].
  apply fsub_zero; [|done].
  destruct (Math_max_positive 4503599627370496 (-51) (speed p) Hs) as [Hz Hn].
  apply fdiv_zero_l; [|exact Hz|exact Hn].
  repeat apply fadd_zero; done.
Qed.

Lemma sum_abs_zero a : Forall (fun x => is_zero x = true) a -> sum_abs a = pzero.
Proof.
  unfold sum_abs. induction 1 as [|x a Hx _ IH]; [done|].
  simpl. destruct x as [[]| | |]; done.
Qed.

(** A cell read through [f32_read] at a valid position is the list element. *)
Lemma f32_read_lookup st l (k : nat) x :
  array_at st l !! k = Some x -> f32_read st l (Z.of_nat k) = x.
Proof.
  intros H. unfold f32_read, f32_get.
  destruct (Z.leb_spec 0 (Z.of_nat k)); [|lia].
  by rewrite Nat2Z.id, H.
Qed.

Lemma f32_read_zero st l i n :
  allocated st l n ->
  Forall (fun x => is_zero x = true) (array_at st l) ->
  0 <= i -> (Z.to_nat i < n)%nat ->
  is_zero (f32_read st l i) = true.
Proof.
  intros Hal Hz Hi Hn.
  pose proof (allocated_length _ _ _ Hal) as Hlen.
  destruct (lookup_lt_is_Some_2 (array_at st l) (Z.to_nat i)) as [x Hx]; [lia|].
  rewrite Forall_lookup in Hz. specialize (Hz _ _ Hx).
  apply f32_read_lookup in Hx. rewrite Z2Nat.id in Hx by done. by rewrite Hx.
Qed.

(** ** Numbers: absence of overflow

    The operations round the exact result with [binary_round_aux]; the
    lemmas below follow the position of the leading digit of the mantissa
    through the shifts and the rounding, which is all that is needed to see
    that a result of moderate magnitude is not an infinity. *)

Lemma digits2_pos_log2 p : Zpos (digits2_pos p) = Z.log2 (Zpos p) + 1.
Proof.
  induction p as [p IH|p IH|]; [| |done].
  - cbn [digits2_pos]. rewrite Pos2Z.inj_succ, IH, Pos2Z.inj_xI.
    rewrite Z.log2_succ_double by lia. lia.
  - cbn [digits2_pos]. rewrite Pos2Z.inj_succ, IH, Pos2Z.inj_xO.
    rewrite Z.log2_double by lia. lia.
Qed.

Lemma Zdigits2_nonneg m : 0 <= Zdigits2 m.
Proof. destruct m; simpl; lia. Qed.

(** [m] has at most [k] binary digits when [|m| < 2^k]. *)
Lemma Zdigits2_le m k : 0 <= k -> Z.abs m < 2 ^ k -> Zdigits2 m <= k.
Proof.
  intros Hk Hm. destruct m as [|p|p]; simpl in *; [lia| |];
    rewrite digits2_pos_log2;
    assert (Z.log2 (Zpos p) < k) by (apply Z.log2_lt_pow2; lia); lia.
Qed.

Lemma Zdigits2_bound m : Z.abs m < 2 ^ Zdigits2 m.
Proof.
  destruct m as [|p|p]; simpl; [lia| |];
    rewrite digits2_pos_log2;
    pose proof (Z.log2_spec (Zpos p) ltac:(lia)) as [_ H];
    replace (Z.succ (Z.log2 (Z.pos p))) with (Z.log2 (Z.pos p) + 1) in H by lia; lia.
Qed.

Lemma shr_m_shr_1 mrs : 0 <= shr_m mrs -> shr_m (shr_1 mrs) = shr_m mrs / 2.
Proof.
  destruct mrs as [m r s]. simpl. intros Hm.
  rewrite <- Z.div2_div. destruct m as [|[p|p|]|p]; simpl; try done; lia.
Qed.

Lemma shr_m_iter n mrs :
  0 <= shr_m mrs -> shr_m (SpecFloat.iter_pos shr_1 n mrs) = shr_m mrs / 2 ^ Zpos n.
Proof.
  revert mrs. induction n as [n IH|n IH|]; intros mrs Hm; cbn [SpecFloat.iter_pos];
    try assert (Hpow : 0 < 2 ^ Z.pos n) by (apply Z.pow_pos_nonneg; lia).
  - assert (H1 : 0 <= shr_m (shr_1 mrs))
      by (rewrite shr_m_shr_1 by done; apply Z.div_pos; lia).
    assert (H2 : 0 <= shr_m (SpecFloat.iter_pos shr_1 n (shr_1 mrs)))
      by (rewrite IH by done; apply Z.div_pos; lia).
    rewrite IH, IH, shr_m_shr_1 by done.
    rewrite (Z.div_div _ 2 (2 ^ Z.pos n)) by lia.
    rewrite (Z.div_div _ (2 * 2 ^ Z.pos n) (2 ^ Z.pos n)) by lia. f_equal.
    replace (Z.pos n~1) with (1 + Z.pos n + Z.pos n) by lia.
    rewrite !Z.pow_add_r by lia. by rewrite Z.pow_1_r.
  - assert (H2 : 0 <= shr_m (SpecFloat.iter_pos shr_1 n mrs))
      by (rewrite IH by done; apply Z.div_pos; lia).
    rewrite IH, IH by done.
    rewrite (Z.div_div _ (2 ^ Z.pos n) (2 ^ Z.pos n)) by lia. f_equal.
    replace (Z.pos n~0) with (Z.pos n + Z.pos n) by lia.
    by rewrite Z.pow_add_r by lia.
  - rewrite shr_m_shr_1 by done. by rewrite Z.pow_1_r.
Qed.

Lemma shr_spec mrs e n :
  0 <= shr_m mrs ->
  snd (shr mrs e n) = e + Z.max n 0 /\
  shr_m (fst (shr mrs e n)) = shr_m mrs / 2 ^ Z.max n 0.
Proof.
  intros Hm. destruct n as [|n|n]; simpl.
  - split; [lia|]. by rewrite Z.div_1_r.
  - split; [lia|]. by apply shr_m_iter.
  - split; [lia|]. by rewrite Z.div_1_r.
Qed.

Lemma shr_m_of_loc m l : shr_m (shr_record_of_loc m l) = m.
Proof. by destruct l as [|[]]. Qed.

(** The shift that brings a mantissa to its canonical exponent: the exponent
    does not decrease, the mantissa stays non-negative, and the position of
    its leading digit does not increase. *)
Lemma shr_fexp_spec m e l :
  0 <= m ->
  let r := shr_fexp prec emax m e l in
  0 <= shr_m (fst r)
  /\ snd r = Z.max e (Z.max (Zdigits2 m + e - 53) (-1074))
  /\ Zdigits2 (shr_m (fst r)) + snd r <= Z.max (snd r) (Zdigits2 m + e).
Proof.
  intros Hm r. unfold r, shr_fexp, fexp, emin, prec, emax.
  set (n := Z.max (Zdigits2 m + e - 53) (3 - 1024 - 53) - e).
  destruct (shr_spec (shr_record_of_loc m l) e n) as [He Hq];
    [rewrite shr_m_of_loc; lia|].
  rewrite shr_m_of_loc in Hq. rewrite He, Hq.
  assert (Hpow : 0 < 2 ^ Z.max n 0) by (apply Z.pow_pos_nonneg; lia).
  split; [apply Z.div_pos; lia|]. split; [lia|].
  pose proof (Zdigits2_nonneg m) as Hd.
  pose proof (Zdigits2_bound m) as Hb. rewrite Z.abs_eq in Hb by done.
  destruct (Z.le_gt_cases (Z.max n 0) (Zdigits2 m)) as [Hle|Hgt].
  - assert (Zdigits2 (m / 2 ^ Z.max n 0) <= Zdigits2 m - Z.max n 0); [|lia].
    apply Zdigits2_le; [lia|].
    rewrite Z.abs_eq by (apply Z.div_pos; lia).
    apply Z.div_lt_upper_bound; [done|].
    rewrite <- Z.pow_add_r by lia.
    by replace (Z.max n 0 + (Zdigits2 m - Z.max n 0)) with (Zdigits2 m) by lia.
  - rewrite Z.div_small; [simpl; lia|].
    split; [done|]. eapply Z.lt_le_trans; [exact Hb|].
    apply Z.pow_le_mono_r; lia.
Qed.

Lemma round_nearest_even_bounds m l :
  m <= round_nearest_even m l <= m + 1.
Proof.
  unfold round_nearest_even. destruct l as [|[]]; try lia.
  destruct (Z.even m); lia.
Qed.

(** Rounding a non-negative mantissa whose leading digit lies below position
    [K] gives a zero or a finite number below [2^(K+1)]: no overflow. *)
Lemma binary_round_aux_bounded sx mx ex lx K :
  0 <= mx ->
  Zdigits2 mx + ex <= K ->
  ex <= 971 ->
  -1074 <= K <= 1023 ->
  bounded_by (K + 1) (binary_round_aux prec emax sx mx ex lx) = true.
Proof.
  intros Hm HK Hex HKr. unfold binary_round_aux.
  pose proof (shr_fexp_spec mx ex lx Hm) as (H1 & H2 & H3).
  destruct (shr_fexp prec emax mx ex lx) as [mrs' e'] eqn:E1. simpl in H1, H2, H3.
  set (m2 := round_nearest_even (shr_m mrs') (loc_of_shr_record mrs')).
  pose proof (round_nearest_even_bounds (shr_m mrs') (loc_of_shr_record mrs')) as Hr.
  fold m2 in Hr.
  assert (Hd2 : Zdigits2 m2 <= Zdigits2 (shr_m mrs') + 1).
  { apply Zdigits2_le; [pose proof (Zdigits2_nonneg (shr_m mrs')); lia|].
    pose proof (Zdigits2_bound (shr_m mrs')) as Hb.
    rewrite Z.abs_eq in Hb by done. rewrite Z.abs_eq by lia.
    rewrite Z.pow_add_r, Z.pow_1_r by (pose proof (Zdigits2_nonneg (shr_m mrs')); lia).
    lia. }
  pose proof (shr_fexp_spec m2 e' loc_Exact ltac:(lia)) as (G1 & G2 & G3).
  destruct (shr_fexp prec emax m2 e' loc_Exact) as [mrs'' e''] eqn:E2.
  simpl in G1, G2, G3.
  destruct (shr_m mrs'') as [|m''|m''] eqn:Em; [done| |lia].
  pose proof (Zdigits2_nonneg mx) as Hdx.
  destruct (Z.leb_spec e'' (emax - prec)); [|unfold emax, prec in *; lia].
  simpl. change (Z.pos (digits2_pos m'')) with (Zdigits2 (Z.pos m'')).
  pose proof (Zdigits2_nonneg mx). apply Z.leb_le. lia.
Qed.

Lemma bounded_by_mono K K' x : K <= K' -> bounded_by K x = true -> bounded_by K' x = true.
Proof.
  intros HK. destruct x as [| | |s m e]; simpl; try done.
  intros H%Z.leb_le. apply Z.leb_le. lia.
Qed.

Lemma bounded_by_finite K x :
  bounded_by K x = true ->
  match x with S754_zero _ | S754_finite _ _ _ => True | _ => False end.
Proof. by destruct x. Qed.

Lemma Pos_iter_xO m d : Zpos (Pos.iter xO m d) = Zpos m * 2 ^ Zpos d.
Proof.
  induction d as [|d IH] using Pos.peano_ind.
  - simpl. lia.
  - rewrite Pos.iter_succ, Pos2Z.inj_xO, IH, Pos2Z.inj_succ, Z.pow_succ_r by lia. lia.
Qed.

(** Alignment of a mantissa to a smaller exponent keeps the value. *)
Lemma shl_align_spec mx ex ex' :
  snd (shl_align mx ex ex') = Z.min ex ex' /\
  Zpos (fst (shl_align mx ex ex')) = Zpos mx * 2 ^ (ex - Z.min ex ex').
Proof.
  unfold shl_align. destruct (ex' - ex) as [|d|d] eqn:E; simpl.
  - replace (ex - Z.min ex ex') with 0 by lia. lia.
  - replace (ex - Z.min ex ex') with 0 by lia. lia.
  - rewrite Pos_iter_xO. split; [lia|]. f_equal. f_equal. lia.
Qed.

Lemma Zdigits2_shift m k : 0 <= k -> Zdigits2 (m * 2 ^ k) <= Zdigits2 m + k.
Proof.
  intros Hk. pose proof (Zdigits2_nonneg m). apply Zdigits2_le; [lia|].
  pose proof (Zdigits2_bound m).
  assert (0 < 2 ^ k) by (apply Z.pow_pos_nonneg; lia).
  rewrite Z.abs_mul, (Z.abs_eq (2 ^ k)), Z.pow_add_r by lia. nia.
Qed.

Lemma binary_round_bounded sx mx ex K :
  Zpos (digits2_pos mx) + ex <= K ->
  -1074 <= K <= 1023 ->
  bounded_by (K + 1) (binary_round prec emax sx mx ex) = true.
Proof.
  intros HK HKr. unfold binary_round.
  set (t := fexp prec emax (Z.pos (digits2_pos mx) + ex)).
  assert (Ht : t = Z.max (Z.pos (digits2_pos mx) + ex - 53) (-1074)) by done.
  destruct (shl_align_spec mx ex t) as [He Hm].
  destruct (shl_align mx ex t) as [mz ez]. simpl in He, Hm.
  apply binary_round_aux_bounded; [lia| |lia|done].
  rewrite Hm. pose proof (Zdigits2_shift (Zpos mx) (ex - Z.min ex t) ltac:(lia)).
  simpl Zdigits2 in *. lia.
Qed.

Lemma binary_normalize_bounded m e s K :
  Zdigits2 m + e <= K ->
  -1074 <= K <= 1023 ->
  bounded_by (K + 1) (binary_normalize prec emax m e s) = true.
Proof.
  intros HK HKr. destruct m as [|p|p]; simpl; [done| |];
    by apply binary_round_bounded.
Qed.

Lemma cond_Zopp_abs s m : Z.abs (cond_Zopp s m) = Z.abs m.
Proof. destruct s; simpl; lia. Qed.

(** The aligned mantissas of two numbers below [2^K] add up, or subtract, to
    a mantissa below [2^(K+1)]. *)
Lemma aligned_sum_digits sx mx ex sy my ey K (op : Z -> Z -> Z) :
  (forall a b, Z.abs (op a b) <= Z.abs a + Z.abs b) ->
  Zpos (digits2_pos mx) + ex <= K ->
  Zpos (digits2_pos my) + ey <= K ->
  let ez := Z.min ex ey in
  Zdigits2 (op (cond_Zopp sx (Zpos (fst (shl_align mx ex ez))))
               (cond_Zopp sy (Zpos (fst (shl_align my ey ez))))) + ez <= K + 1.
Proof.
  intros Hop Hx Hy ez.
  destruct (shl_align_spec mx ex ez) as [_ Hmx].
  destruct (shl_align_spec my ey ez) as [_ Hmy].
  set (a := cond_Zopp sx _). set (b := cond_Zopp sy _).
  assert (Ha : Z.abs a < 2 ^ (K - ez)).
  { unfold a. rewrite cond_Zopp_abs, Hmx.
    replace (Z.min ex ez) with ez by lia.
    pose proof (Zdigits2_bound (Zpos mx * 2 ^ (ex - ez))) as Hb.
    pose proof (Zdigits2_shift (Zpos mx) (ex - ez) ltac:(lia)) as Hs.
    eapply Z.lt_le_trans; [exact Hb|]. apply Z.pow_le_mono_r; [lia|].
    simpl Zdigits2 in *. lia. }
  assert (Hb : Z.abs b < 2 ^ (K - ez)).
  { unfold b. rewrite cond_Zopp_abs, Hmy.
    replace (Z.min ey ez) with ez by lia.
    pose proof (Zdigits2_bound (Zpos my * 2 ^ (ey - ez))) as Hb.
    pose proof (Zdigits2_shift (Zpos my) (ey - ez) ltac:(lia)) as Hs.
    eapply Z.lt_le_trans; [exact Hb|]. apply Z.pow_le_mono_r; [lia|].
    simpl Zdigits2 in *. lia. }
  assert (Zdigits2 (op a b) <= K - ez + 1); [|lia].
  pose proof (Pos2Z.is_pos (digits2_pos mx)).
  apply Zdigits2_le; [lia|].
  rewrite Z.pow_add_r, Z.pow_1_r by lia. specialize (Hop a b). lia.
Qed.

Lemma fadd_bounded x y K :
  bounded_by K x = true -> bounded_by K y = true ->
  -1074 <= K <= 1022 ->
  bounded_by (K + 2) (fadd x y) = true.
Proof.
  intros Hx Hy HK.
  destruct x as [sx| | |sx mx ex], y as [sy| | |sy my ey]; try done.
  - by destruct sx, sy.
  - by apply (bounded_by_mono K); [lia|].
  - by apply (bounded_by_mono K); [lia|].
  - apply Z.leb_le in Hx, Hy. unfold fadd; cbn [SFadd].
    replace (K + 2) with (K + 1 + 1) by lia.
    apply binary_normalize_bounded; [|lia].
    apply aligned_sum_digits; [lia|done..].
Qed.

Lemma fsub_bounded x y K :
  bounded_by K x = true -> bounded_by K y = true ->
  -1074 <= K <= 1022 ->
  bounded_by (K + 2) (fsub x y) = true.
Proof.
  intros Hx Hy HK.
  destruct x as [sx| | |sx mx ex], y as [sy| | |sy my ey]; try done.
  - by destruct sx, sy.
  - simpl. apply Z.leb_le in Hy. apply Z.leb_le. lia.
  - by apply (bounded_by_mono K); [lia|].
  - apply Z.leb_le in Hx, Hy. unfold fsub; cbn [SFsub].
    replace (K + 2) with (K + 1 + 1) by lia.
    apply binary_normalize_bounded; [|lia].
    apply aligned_sum_digits; [lia|done..].
Qed.

Lemma Zdigits2_lower m : 0 < m -> 2 ^ (Zdigits2 m - 1) <= m.
Proof.
  intros Hm. destruct m as [|p|p]; [lia| |lia]. simpl.
  rewrite digits2_pos_log2.
  replace (Z.log2 (Z.pos p) + 1 - 1) with (Z.log2 (Z.pos p)) by lia.
  apply Z.log2_spec. lia.
Qed.

(** The quotient mantissa of a division: non-negative, at an exponent that
    cannot overflow, with its leading digit at most one position above the
    difference of the leading positions. *)
Lemma SFdiv_core_spec mx ex my ey :
  let D := Zpos (digits2_pos mx) + ex - (Zpos (digits2_pos my) + ey) in
  let r := SFdiv_core_binary prec emax (Zpos mx) ex (Zpos my) ey in
  0 <= fst (fst r)
  /\ snd (fst r) <= Z.max (D - 53) (-1074)
  /\ Zdigits2 (fst (fst r)) + snd (fst r) <= Z.max (snd (fst r)) (D + 1).
Proof.
  intros D r. unfold r, SFdiv_core_binary.
  change (Zdigits2 (Z.pos mx)) with (Zpos (digits2_pos mx)).
  change (Zdigits2 (Z.pos my)) with (Zpos (digits2_pos my)).
  set (d1 := Zpos (digits2_pos mx)) in *. set (d2 := Zpos (digits2_pos my)) in *.
  set (e' := Z.min (fexp prec emax (d1 + ex - (d2 + ey))) (ex - ey)).
  assert (He' : e' = Z.min (Z.max (D - 53) (-1074)) (ex - ey)) by done.
  set (s := ex - ey - e').
  assert (Hs : 0 <= s) by (unfold s; lia).
  set (m' := match s with Z.pos _ => Z.shiftl (Z.pos mx) s | 0 => Z.pos mx | Z.neg _ => 0 end).
  assert (Hm' : m' = Zpos mx * 2 ^ s).
  { unfold m'. destruct s as [|k|k]; [simpl; lia| |lia].
    by rewrite Z.shiftl_mul_pow2 by lia. }
  destruct (Z.div_eucl m' (Z.pos my)) as [q rem] eqn:E.
  assert (Hq : q = m' / Zpos my) by (unfold Z.div; by rewrite E).
  cbn [fst snd].
  assert (H2s : 0 < 2 ^ s) by (apply Z.pow_pos_nonneg; lia).
  assert (Hq0 : 0 <= q) by (rewrite Hq; apply Z.div_pos; nia).
  split; [done|]. split; [lia|].
  assert (Hd1 : 0 < d1) by (unfold d1; lia).
  assert (Hd2 : 0 < d2) by (unfold d2; lia).
  pose proof (Zdigits2_lower (Zpos my) ltac:(lia)) as Hlow.
  pose proof (Zdigits2_bound (Zpos mx)) as Hup.
  simpl Zdigits2 in Hlow, Hup. fold d1 in Hup. fold d2 in Hlow.
  rewrite Z.abs_eq in Hup by lia.
  assert (Hmup : m' < 2 ^ (d1 + s)) by (rewrite Hm', Z.pow_add_r by lia; nia).
  assert (Hp2 : 0 < 2 ^ (d2 - 1)) by (apply Z.pow_pos_nonneg; lia).
  assert (Hqle : q <= m' / 2 ^ (d2 - 1)).
  { rewrite Hq. apply Z.div_le_compat_l; [nia|lia]. }
  destruct (Z.le_gt_cases (d2 - 1) (d1 + s)) as [Hle|Hgt].
  - assert (Zdigits2 q <= d1 + s - (d2 - 1)); [|unfold s, D in *; lia].
    apply Zdigits2_le; [lia|]. rewrite Z.abs_eq by done.
    eapply Z.le_lt_trans; [exact Hqle|].
    apply Z.div_lt_upper_bound; [done|].
    rewrite <- Z.pow_add_r by lia.
    by replace (d2 - 1 + (d1 + s - (d2 - 1))) with (d1 + s) by lia.
  - assert (q = 0) as ->; [|simpl; lia].
    assert (m' / 2 ^ (d2 - 1) = 0); [|lia].
    apply Z.div_small. split; [nia|].
    eapply Z.lt_le_trans; [exact Hmup|]. apply Z.pow_le_mono_r; lia.
Qed.

Lemma fdiv_bounded x y K L :
  bounded_by K x = true ->
  match y with
  | S754_infinity _ => True
  | S754_finite _ m e => L <= Zpos (digits2_pos m) + e
  | _ => False
  end ->
  -1074 <= K - L + 1 <= 1023 ->
  bounded_by (K - L + 2) (fdiv x y) = true.
Proof.
  intros Hx Hy HK.
  destruct x as [sx| | |sx mx ex], y as [sy|sy| |sy my ey]; try done.
  apply Z.leb_le in Hx. unfold fdiv; cbn [SFdiv].
  pose proof (SFdiv_core_spec mx ex my ey) as (H1 & H2 & H3).
  destruct (SFdiv_core_binary prec emax (Z.pos mx) ex (Z.pos my) ey) as [[q e'] l].
  cbn [fst snd] in H1, H2, H3.
  replace (K - L + 2) with (K - L + 1 + 1) by lia.
  apply binary_round_aux_bounded; [done|lia|lia|done].
Qed.

Lemma bounded_by_is_finite K x : bounded_by K x = true -> is_finite x = true.
Proof. by destruct x. Qed.

(** The larger of a positive number and a number other than NaN is
    [+infinity] or a finite number that is not below the positive one. *)
Lemma Math_max_lower m0 e0 s :
  is_nan s = false ->
  match Math_max (S754_finite false m0 e0) s with
  | S754_infinity _ => True
  | S754_finite _ m e => e0 + 1 <= Zpos (digits2_pos m) + e
  | _ => False
  end.
Proof.
  intros Hs. unfold Math_max.
  pose proof (Pos2Z.is_pos (digits2_pos m0)) as H0.
  destruct s as [sg|sg| |sg m e]; simpl; try done; try lia.
  - destruct sg; [lia|done].
  - destruct sg; [lia|].
    pose proof (Pos2Z.is_pos (digits2_pos m)) as Hm.
    destruct (e0 ?= e) eqn:He.
    + apply Z.compare_eq in He.
      destruct (PosDef.Pos.compare_cont Eq m0 m); lia.
    + rewrite Z.compare_lt_iff in He. lia.
    + lia.
Qed.

(** The quantity the damping factor multiplies is finite when the five cells
    read hold finite single-precision values and the speed is not NaN. *)
Lemma wave_operand_finite c1 c2 c3 c4 n s :
  f32_finite c1 = true -> f32_finite c2 = true ->
  f32_finite c3 = true -> f32_finite c4 = true ->
  f32_finite n = true ->
  is_nan s = false ->
  is_finite
    (fsub (fdiv (fadd (fadd (fadd c1 c2) c3) c4) (Math_max two s)) n) = true.
Proof.
  unfold f32_finite. intros H1 H2 H3 H4 Hn Hs.
  apply (bounded_by_is_finite (186 + 2)).
  apply fsub_bounded; [|by apply (bounded_by_mono 128); [lia|]|lia].
  change 186 with (134 - (-50) + 2).
  apply fdiv_bounded; [| |lia].
  - change 134 with (132 + 2).
    apply fadd_bounded; [|by apply (bounded_by_mono 128); [lia|]|lia].
    change 132 with (130 + 2).
    apply fadd_bounded; [|by apply (bounded_by_mono 128); [lia|]|lia].
    change 130 with (128 + 2).
    by apply fadd_bounded; [..|lia].
  - exact (Math_max_lower 4503599627370496 (-51) s Hs).
Qed.

(** A positive number below a positive bound has no larger exponent. *)
Lemma fltb_exponent sg m e m0 e0 :
  fltb (S754_finite sg m e) (S754_finite false m0 e0) = true ->
  sg = true \/ e <= e0.
Proof.
  unfold fltb, SFltb. simpl. destruct sg; [by left|]. right.
  destruct (e ?= e0) eqn:He; try done.
  - apply Z.compare_eq in He. lia.
  - rewrite Z.compare_lt_iff in He. lia.
Qed.

(** For a viscosity in [0, 1) the damping factor [1 - viscosity] is finite. *)
Lemma damping_finite v :
  is_binary64 v = true -> fleb pzero v = true -> fltb v one = true ->
  is_finite (fsub one v) = true.
Proof.
  intros Hv H0 H1. destruct v as [sg|sg| |sg m e]; try done.
  - by destruct sg.
  - apply (bounded_by_is_finite (1 + 2)).
    apply fsub_bounded; [done| |lia].
    destruct (fltb_exponent _ _ _ _ _ H1) as [->|He]; [done|].
    unfold is_binary64, valid_binary, bounded, canonical_mantissa, fexp, emin,
      prec, emax in Hv.
    apply andb_prop in Hv as [Hc _]. apply Z.eqb_eq in Hc.
    simpl. apply Z.leb_le. lia.
Qed.

(** ** Repeated frames *)

Lemma swap_wf p st : wf p st -> wf p (swap st).
Proof. intros [Hd H1 H2]. split; simpl; [congruence|done..]. Qed.

Lemma update_wf p img st : wf p st -> wf p (fst (update p img st)).
Proof. intros H. rewrite update_state. by apply swap_wf, solve_wf. Qed.

Lemma frames_wf p img n st : wf p st -> wf p (frames p img n st).
Proof.
  intros H. induction n as [|n IH]; [done|].
  cbn [frames]. by apply update_wf.
Qed.

Lemma frames_add p img a b st :
  frames p img (a + b) st = frames p img a (frames p img b st).
Proof. induction a as [|a IH]; [done|]. cbn [frames Nat.add]. by rewrite IH. Qed.

(** A state that comes back after [k] frames comes back after every multiple
    of [k] frames. *)
Lemma frames_period p img k st m :
  frames p img k st = st -> frames p img (m * k) st = st.
Proof.
  intros Hk. induction m as [|m IH]; [done|].
  replace (S m * k)%nat with (k + m * k)%nat by lia.
  by rewrite frames_add, IH.
Qed.

Section ZeroField.

Variable p : props.
Hypothesis Hwidth : 0 <= width p.
Hypothesis Hspeed : is_nan (speed p) = false.
Hypothesis Hdamping : is_finite (fsub one (viscosity p)) = true.

Lemma solve_zero_field st : wf p st -> zero_field st -> zero_field (solve p st).
Proof.
  intros Hwf [Hz1 Hz2]. unfold zero_field.
  pose proof (wf_buffer2 _ _ (solve_wf _ _ Hwf)) as Hal2'.
  destruct (solve_fields p st) as [E1 E2]. rewrite E2 in Hal2'. rewrite E1, E2.
  pose proof (wf_distinct _ _ Hwf) as Hd.
  pose proof (wf_buffer1 _ _ Hwf) as Hal1.
  pose proof (wf_buffer2 _ _ Hwf) as Hal2.
  split; [by rewrite solve_current|].
  apply Forall_lookup. intros k x Hx.
  pose proof (lookup_lt_Some _ _ _ Hx) as Hk.
  rewrite (allocated_length _ _ _ Hal2') in Hk.
  apply f32_read_lookup in Hx. rewrite <- Hx.
  set (i := Z.of_nat k) in *.
  destruct (decide (width p <= i < width p * height p - width p)) as [Hi|Hi].
  - assert (0 < width p)
      by (destruct (decide (width p = 0)) as [E|]; [rewrite E in Hi; lia | lia]).
    rewrite solve_inside by (done || lia).
    apply fround_zero, wave_zero; try done;
      apply (f32_read_zero _ _ _ _ Hal1 Hz1) || apply (f32_read_zero _ _ _ _ Hal2 Hz2);
      lia.
  - rewrite solve_outside by done.
    apply (f32_read_zero _ _ _ _ Hal2 Hz2); lia.
Qed.

Lemma update_zero_field img st :
  wf p st -> zero_field st -> zero_field (fst (update p img st)).
Proof.
  intros Hwf Hz. rewrite update_state.
  destruct (solve_zero_field st Hwf Hz) as [H1 H2]. by split.
Qed.

Lemma frames_zero_field img n st :
  wf p st -> zero_field st -> zero_field (frames p img n st).
Proof.
  intros Hwf Hz. induction n as [|n IH]; [done|].
  cbn [frames]. apply update_zero_field; [by apply frames_wf | done].
Qed.

End ZeroField.

Lemma loaded_zero_field p : 0 <= width p * height p -> zero_field (loaded p).
Proof.
  intros H. unfold loaded. rewrite create_nonnegative by done.
  unfold zero_field, array_at. cbn [arrays buffer1 buffer2].
  rewrite lookup_insert_ne by done. rewrite !lookup_insert_eq.
  split; apply Forall_replicate; done.
Qed.

Lemma zero_field_check st :
  forallb is_zero (array_at st (buffer1 st))
  && forallb is_zero (array_at st (buffer2 st)) = true ->
  zero_field st.
Proof.
  intros H. apply andb_prop in H as [H1 H2].
  split; apply Forall_forall; intros x Hx.
  - rewrite forallb_forall in H1. apply H1. by apply list_elem_of_In.
  - rewrite forallb_forall in H2. apply H2. by apply list_elem_of_In.
Qed.

Lemma zero_field_checked st :
  zero_field st ->
  forallb is_zero (array_at st (buffer1 st))
  && forallb is_zero (array_at st (buffer2 st)) = true.
Proof.
  intros [H1 H2]. apply andb_true_intro.
  split; apply forallb_forall; intros x Hx.
  - rewrite Forall_forall in H1. apply H1. by apply list_elem_of_In.
  - rewrite Forall_forall in H2. apply H2. by apply list_elem_of_In.
Qed.

Lemma column3_period :
  frames column3 (test_image column3) 4 column3_disturbed = column3_disturbed.
Proof. by vm_compute. Qed.

(** The damped column (viscosity 0.5) settles, in single precision, into a
    cycle of four frames as well; the sum of absolute amplitudes keeps
    alternating between 512 and a value near 170.67. *)
Lemma column3_damped_period :
  frames column3_damped (test_image column3_damped) 4
    (frames column3_damped (test_image column3_damped) 60 column3_damped_disturbed)
  = frames column3_damped (test_image column3_damped) 60 column3_damped_disturbed.
Proof. by vm_compute. Qed.

Lemma grid4_viscous_disturbed_wf :
  wf grid4_viscous (inject grid4_viscous (loaded grid4_viscous) 1 1).
Proof. apply inject_wf, loaded_wf. simpl. lia. Qed.

(** ** Integers as numbers

    Sums, differences, products and comparisons of integers of magnitude
    below 2^53 are exact in binary64. *)

Lemma Zdigits2_pos m : 0 < m -> Zdigits2 m = Z.log2 m + 1.
Proof. destruct m; try lia. intros _. apply digits2_pos_log2. Qed.

Lemma Zdigits2_mul_pow2 m k : 0 < m -> 0 <= k -> Zdigits2 (m * 2 ^ k) = Zdigits2 m + k.
Proof.
  intros Hm Hk. assert (0 < 2 ^ k) by (apply Z.pow_pos_nonneg; lia).
  rewrite !Zdigits2_pos by nia. rewrite Z.log2_mul_pow2 by lia. lia.
Qed.

Lemma shr_1_double k :
  0 <= k ->
  shr_1 {| shr_m := 2 * k; shr_r := false; shr_s := false |}
  = {| shr_m := k; shr_r := false; shr_s := false |}.
Proof. intros Hk. destruct k; [done|done|lia]. Qed.

(** Shifting out zeros only is exact. *)
Lemma iter_shr_1_exact n k :
  0 <= k ->
  SpecFloat.iter_pos shr_1 n {| shr_m := k * 2 ^ Z.pos n; shr_r := false; shr_s := false |}
  = {| shr_m := k; shr_r := false; shr_s := false |}.
Proof.
  revert k. induction n as [n IH|n IH|]; intros k Hk; cbn [SpecFloat.iter_pos].
  - assert (0 < 2 ^ Z.pos n) by (apply Z.pow_pos_nonneg; lia).
    replace (k * 2 ^ Z.pos n~1) with (2 * (k * 2 ^ Z.pos n * 2 ^ Z.pos n)).
    2:{ replace (Z.pos n~1) with (1 + Z.pos n + Z.pos n) by lia.
        rewrite !Z.pow_add_r, Z.pow_1_r by lia. lia. }
    rewrite shr_1_double by nia. rewrite IH by nia. by apply IH.
  - assert (0 < 2 ^ Z.pos n) by (apply Z.pow_pos_nonneg; lia).
    replace (k * 2 ^ Z.pos n~0) with (k * 2 ^ Z.pos n * 2 ^ Z.pos n).
    2:{ replace (Z.pos n~0) with (Z.pos n + Z.pos n) by lia.
        rewrite !Z.pow_add_r by lia. lia. }
    rewrite IH by nia. by apply IH.
  - rewrite Z.pow_1_r, Z.mul_comm. by apply shr_1_double.
Qed.

Lemma Zdigits2_small n : 0 < n < 2 ^ 53 -> 1 <= Zdigits2 n <= 53.
Proof.
  intros Hn. rewrite Zdigits2_pos by lia.
  pose proof (Z.log2_nonneg n).
  assert (Z.log2 n < 53) by (apply Z.log2_lt_pow2; lia). lia.
Qed.

Lemma binary_round_aux_integer s n k :
  0 < n < 2 ^ 53 -> 53 - Zdigits2 n <= k ->
  binary_round_aux prec emax s (n * 2 ^ k) (- k) loc_Exact
  = S754_finite s (Z.to_pos (n * 2 ^ (53 - Zdigits2 n))) (Zdigits2 n - 53).
Proof.
  intros Hn Hk. pose proof (Zdigits2_small n Hn) as Hd.
  set (d := Zdigits2 n) in *.
  assert (Hc : 0 < n * 2 ^ (53 - d)).
  { assert (0 < 2 ^ (53 - d)) by (apply Z.pow_pos_nonneg; lia). nia. }
  assert (Hdc : Zdigits2 (n * 2 ^ (53 - d)) = 53).
  { rewrite Zdigits2_mul_pow2 by lia. fold d. lia. }
  unfold binary_round_aux, shr_fexp.
  rewrite Zdigits2_mul_pow2 by lia. fold d.
  replace (d + k + - k) with d by lia.
  unfold fexp, emin, prec, emax. rewrite (Z.max_l (d - 53)) by lia.
  assert (Hfirst : shr (shr_record_of_loc (n * 2 ^ k) loc_Exact) (- k) (d - 53 - - k)
                   = ({| shr_m := n * 2 ^ (53 - d); shr_r := false; shr_s := false |},
                      d - 53)).
  { destruct (d - 53 - - k) as [|t|t] eqn:Et; [| |lia]; cbn [shr shr_record_of_loc].
    - replace k with (53 - d) by lia. f_equal. lia.
    - replace (n * 2 ^ k) with (n * 2 ^ (53 - d) * 2 ^ Z.pos t).
      2:{ rewrite <- Z.mul_assoc, <- Z.pow_add_r by lia. do 2 f_equal. lia. }
      rewrite iter_shr_1_exact by lia. f_equal. lia. }
  rewrite Hfirst. cbn [shr_m loc_of_shr_record round_nearest_even].
  rewrite Hdc. replace (53 + (d - 53)) with d by lia.
  rewrite (Z.max_l (d - 53)) by lia. rewrite Z.sub_diag.
  cbn [shr shr_record_of_loc shr_m].
  destruct (n * 2 ^ (53 - d)) as [|c|c] eqn:Ec; [lia| |lia].
  destruct (Z.leb_spec (d - 53) (1024 - 53)); [|lia].
  done.
Qed.

Lemma binary_round_integer s n k :
  0 < n < 2 ^ 53 -> 0 <= k ->
  binary_round prec emax s (Z.to_pos (n * 2 ^ k)) (- k)
  = S754_finite s (Z.to_pos (n * 2 ^ (53 - Zdigits2 n))) (Zdigits2 n - 53).
Proof.
  intros Hn Hk. pose proof (Zdigits2_small n Hn) as Hd.
  assert (Hp : 0 < n * 2 ^ k).
  { assert (0 < 2 ^ k) by (apply Z.pow_pos_nonneg; lia). nia. }
  unfold binary_round.
  destruct (shl_align _ _ _) as [mz ez] eqn:E.
  pose proof (shl_align_spec (Z.to_pos (n * 2 ^ k)) (- k)
                (fexp prec emax (Z.pos (digits2_pos (Z.to_pos (n * 2 ^ k))) + - k)))
    as [He Hm].
  rewrite E in He, Hm. cbn [fst snd] in He, Hm.
  change (Z.pos (digits2_pos (Z.to_pos (n * 2 ^ k))))
    with (Zdigits2 (Z.pos (Z.to_pos (n * 2 ^ k)))) in He, Hm.
  rewrite Z2Pos.id in He, Hm by done.
  rewrite Zdigits2_mul_pow2 in He, Hm by lia.
  replace (Zdigits2 n + k + - k) with (Zdigits2 n) in He, Hm by lia.
  unfold fexp, emin, prec, emax in He, Hm.
  rewrite (Z.max_l (Zdigits2 n - 53)) in He, Hm by lia.
  set (k' := Z.max k (53 - Zdigits2 n)).
  assert (He' : ez = - k') by lia.
  assert (Hm' : Z.pos mz = n * 2 ^ k').
  { rewrite Hm, <- Z.mul_assoc, <- Z.pow_add_r by lia. do 2 f_equal. lia. }
  rewrite He', Hm'. apply binary_round_aux_integer; [done|lia].
Qed.

Lemma integer_nonzero n :
  n <> 0 ->
  integer n = S754_finite (n <? 0) (Z.to_pos (Z.abs n * 2 ^ (53 - Zdigits2 n)))
                (Zdigits2 n - 53).
Proof. by destruct n. Qed.

Lemma Zdigits2_abs n : Zdigits2 (Z.abs n) = Zdigits2 n.
Proof. by destruct n. Qed.

(** Rounding an integer of magnitude below 2^53 gives the integer, however
    it is written. *)
Lemma binary_normalize_integer n k :
  - 2 ^ 53 < n < 2 ^ 53 -> 0 <= k ->
  binary_normalize prec emax (n * 2 ^ k) (- k) false = integer n.
Proof.
  intros Hn Hk.
  assert (Hp : 0 < 2 ^ k) by (apply Z.pow_pos_nonneg; lia).
  destruct n as [|n|n].
  - done.
  - rewrite integer_nonzero by lia.
    destruct (Z.pos n * 2 ^ k) as [|c|c] eqn:Ec; [lia| |lia].
    cbn [binary_normalize].
    replace c with (Z.to_pos (Z.pos n * 2 ^ k)) by (rewrite Ec; done).
    by rewrite binary_round_integer by lia.
  - rewrite integer_nonzero by lia.
    destruct (Z.neg n * 2 ^ k) as [|c|c] eqn:Ec; [lia|lia|].
    cbn [binary_normalize].
    replace c with (Z.to_pos (Z.pos n * 2 ^ k)).
    2:{ assert (Z.pos c = Z.pos n * 2 ^ k) by lia. 
        apply Pos2Z.inj. rewrite Z2Pos.id by lia. lia. }
    by rewrite binary_round_integer by lia.
Qed.

Lemma of_Z_integer n : - 2 ^ 53 < n < 2 ^ 53 -> of_Z n = integer n.
Proof.
  intros Hn. unfold of_Z.
  replace n with (n * 2 ^ 0) at 1 by lia.
  by apply (binary_normalize_integer n 0).
Qed.

Lemma cond_Zopp_sign n c : cond_Zopp (n <? 0) (Z.abs n * c) = n * c.
Proof. destruct n; simpl; lia. Qed.

(** The mantissa of [integer a], shifted to the exponent [ez]. *)
Lemma aligned_integer a ez :
  a <> 0 -> - 2 ^ 53 < a < 2 ^ 53 -> ez <= Zdigits2 a - 53 ->
  cond_Zopp (a <? 0)
    (Z.pos (fst (shl_align (Z.to_pos (Z.abs a * 2 ^ (53 - Zdigits2 a)))
                   (Zdigits2 a - 53) ez)))
  = a * 2 ^ (- ez).
Proof.
  intros Ha Hb He.
  pose proof (Zdigits2_small (Z.abs a) ltac:(lia)) as Hd. rewrite Zdigits2_abs in Hd.
  assert (0 < 2 ^ (53 - Zdigits2 a)) by (apply Z.pow_pos_nonneg; lia).
  destruct (shl_align_spec (Z.to_pos (Z.abs a * 2 ^ (53 - Zdigits2 a)))
              (Zdigits2 a - 53) ez) as [_ Hm].
  rewrite Hm, Z2Pos.id by nia.
  rewrite Z.min_r by lia.
  rewrite <- Z.mul_assoc, <- Z.pow_add_r by lia.
  replace (53 - Zdigits2 a + (Zdigits2 a - 53 - ez)) with (- ez) by lia.
  apply cond_Zopp_sign.
Qed.

Lemma fadd_integer a b :
  - 2 ^ 53 < a < 2 ^ 53 -> - 2 ^ 53 < b < 2 ^ 53 -> - 2 ^ 53 < a + b < 2 ^ 53 ->
  fadd (integer a) (integer b) = integer (a + b).
Proof.
  intros Ha Hb Hab.
  destruct (decide (a = 0)) as [->|Ha0].
  { destruct b; done. }
  destruct (decide (b = 0)) as [->|Hb0].
  { rewrite Z.add_0_r. destruct a; done. }
  rewrite (integer_nonzero a), (integer_nonzero b) by done.
  unfold fadd. cbn [SFadd].
  set (ez := Z.min (Zdigits2 a - 53) (Zdigits2 b - 53)).
  pose proof (Zdigits2_small (Z.abs a) ltac:(lia)) as Hda. rewrite Zdigits2_abs in Hda.
  pose proof (Zdigits2_small (Z.abs b) ltac:(lia)) as Hdb. rewrite Zdigits2_abs in Hdb.
  rewrite !aligned_integer by (try done; lia).
  rewrite <- Z.mul_add_distr_r.
  replace ez with (- - ez) at 2 by lia.
  apply binary_normalize_integer; lia.
Qed.

Lemma fsub_integer a b :
  - 2 ^ 53 < a < 2 ^ 53 -> - 2 ^ 53 < b < 2 ^ 53 -> - 2 ^ 53 < a - b < 2 ^ 53 ->
  fsub (integer a) (integer b) = integer (a - b).
Proof.
  intros Ha Hb Hab.
  destruct (decide (b = 0)) as [->|Hb0].
  { rewrite Z.sub_0_r. destruct a; done. }
  destruct (decide (a = 0)) as [->|Ha0].
  { destruct b; done. }
  rewrite (integer_nonzero a), (integer_nonzero b) by done.
  unfold fsub. cbn [SFsub].
  set (ez := Z.min (Zdigits2 a - 53) (Zdigits2 b - 53)).
  pose proof (Zdigits2_small (Z.abs a) ltac:(lia)) as Hda. rewrite Zdigits2_abs in Hda.
  pose proof (Zdigits2_small (Z.abs b) ltac:(lia)) as Hdb. rewrite Zdigits2_abs in Hdb.
  rewrite !aligned_integer by (try done; lia).
  rewrite <- Z.mul_sub_distr_r.
  replace ez with (- - ez) at 2 by lia.
  apply binary_normalize_integer; lia.
Qed.

Lemma Zdigits2_mul_lower a b :
  0 < a -> 0 < b -> Zdigits2 a + Zdigits2 b - 1 <= Zdigits2 (a * b).
Proof.
  intros Ha Hb.
  pose proof (Zdigits2_lower a Ha) as La.
  pose proof (Zdigits2_lower b Hb) as Lb.
  pose proof (Zdigits2_bound (a * b)) as Hab. rewrite Z.abs_eq in Hab by nia.
  assert (1 <= Zdigits2 a) by (rewrite Zdigits2_pos by done; pose proof (Z.log2_nonneg a); lia).
  assert (1 <= Zdigits2 b) by (rewrite Zdigits2_pos by done; pose proof (Z.log2_nonneg b); lia).
  assert (Hpow : 2 ^ (Zdigits2 a + Zdigits2 b - 2) < 2 ^ Zdigits2 (a * b)).
  { eapply Z.le_lt_trans; [|exact Hab].
    replace (Zdigits2 a + Zdigits2 b - 2) with ((Zdigits2 a - 1) + (Zdigits2 b - 1)) by lia.
    rewrite Z.pow_add_r by lia.
    apply Z.mul_le_mono_nonneg; try done; apply Z.pow_nonneg; lia. }
  apply Z.pow_lt_mono_r_iff in Hpow; [lia|lia|].
  apply Zdigits2_nonneg.
Qed.

Lemma fmul_integer a b :
  0 <= a -> 0 <= b -> a * b < 2 ^ 53 ->
  fmul (integer a) (integer b) = integer (a * b).
Proof.
  intros Ha Hb Hab.
  destruct (decide (a = 0)) as [->|Ha0].
  { destruct b; done. }
  destruct (decide (b = 0)) as [->|Hb0].
  { rewrite Z.mul_0_r. destruct a; done. }
  assert (Ha53 : a < 2 ^ 53) by nia.
  assert (Hb53 : b < 2 ^ 53) by nia.
  pose proof (Zdigits2_small a ltac:(lia)) as Hda.
  pose proof (Zdigits2_small b ltac:(lia)) as Hdb.
  pose proof (Zdigits2_small (a * b) ltac:(nia)) as Hdab.
  pose proof (Zdigits2_mul_lower a b ltac:(lia) ltac:(lia)) as Hlow.
  rewrite (integer_nonzero a), (integer_nonzero b), (integer_nonzero (a * b)) by nia.
  destruct (Z.ltb_spec a 0); [lia|]. destruct (Z.ltb_spec b 0); [lia|].
  destruct (Z.ltb_spec (a * b) 0); [nia|].
  rewrite !Z.abs_eq by nia.
  unfold fmul. cbn [SFmul xorb].
  assert (0 < 2 ^ (53 - Zdigits2 a)) by (apply Z.pow_pos_nonneg; lia).
  assert (0 < 2 ^ (53 - Zdigits2 b)) by (apply Z.pow_pos_nonneg; lia).
  rewrite Pos2Z.inj_mul, !Z2Pos.id by nia.
  set (k := 106 - Zdigits2 a - Zdigits2 b).
  replace (a * 2 ^ (53 - Zdigits2 a) * (b * 2 ^ (53 - Zdigits2 b)))
    with (a * b * 2 ^ k).
  2:{ unfold k. replace (106 - Zdigits2 a - Zdigits2 b)
        with ((53 - Zdigits2 a) + (53 - Zdigits2 b)) by lia.
      rewrite Z.pow_add_r by lia. lia. }
  replace (Zdigits2 a - 53 + (Zdigits2 b - 53)) with (- k) by lia.
  apply binary_round_aux_integer; [nia|lia].
Qed.

Lemma Zdigits2_lt_lt a b : 0 < a -> 0 < b -> Zdigits2 a < Zdigits2 b -> a < b.
Proof.
  intros Ha Hb H.
  pose proof (Zdigits2_bound a) as Ba. rewrite Z.abs_eq in Ba by lia.
  pose proof (Zdigits2_lower b Hb) as Lb.
  assert (2 ^ Zdigits2 a <= 2 ^ (Zdigits2 b - 1)); [|lia].
  apply Z.pow_le_mono_r; lia.
Qed.

(** The comparison of the magnitudes of two positive integers, as
    [SFcompare] makes it on their mantissas and exponents. *)
Lemma magnitude_compare a b :
  0 < a < 2 ^ 53 -> 0 < b < 2 ^ 53 ->
  match (Zdigits2 a - 53 ?= Zdigits2 b - 53) with
  | Lt => Lt
  | Gt => Gt
  | Eq => Pos.compare_cont Eq (Z.to_pos (a * 2 ^ (53 - Zdigits2 a)))
            (Z.to_pos (b * 2 ^ (53 - Zdigits2 b)))
  end = (a ?= b).
Proof.
  intros Ha Hb.
  pose proof (Zdigits2_small a Ha) as Hda.
  pose proof (Zdigits2_small b Hb) as Hdb.
  destruct (Z.compare_spec (Zdigits2 a - 53) (Zdigits2 b - 53)) as [E|L|G].
  - assert (Ed : Zdigits2 a = Zdigits2 b) by lia. rewrite Ed.
    assert (0 < 2 ^ (53 - Zdigits2 b)) by (apply Z.pow_pos_nonneg; lia).
    change (Pos.compare_cont Eq ?x ?y) with (Pos.compare x y).
    rewrite Pos2Z.inj_compare, !Z2Pos.id by nia.
    destruct (Z.compare_spec a b) as [E'|L'|G'].
    + subst. apply Z.compare_refl.
    + apply Z.compare_lt_iff. nia.
    + apply Z.compare_gt_iff. nia.
  - symmetry. apply Z.compare_lt_iff. apply Zdigits2_lt_lt; lia.
  - symmetry. apply Z.compare_gt_iff. apply Zdigits2_lt_lt; lia.
Qed.

Lemma SFcompare_integer a b :
  - 2 ^ 53 < a < 2 ^ 53 -> - 2 ^ 53 < b < 2 ^ 53 ->
  SFcompare (integer a) (integer b) = Some (a ?= b).
Proof.
  intros Ha Hb.
  destruct a as [|a|a], b as [|b|b]; try done.
  - cbn -[Z.pow Z.to_pos Zdigits2 Pos.compare_cont].
    f_equal. apply (magnitude_compare (Z.pos a) (Z.pos b)); lia.
  - cbn -[Z.pow Z.to_pos Zdigits2 Pos.compare_cont].
    f_equal.
    pose proof (magnitude_compare (Z.pos a) (Z.pos b) ltac:(lia) ltac:(lia)) as H.
    change (Zdigits2 (Z.neg a)) with (Zdigits2 (Z.pos a)).
    change (Zdigits2 (Z.neg b)) with (Zdigits2 (Z.pos b)).
    change (Z.abs (Z.neg a)) with (Z.pos a).
    change (Z.abs (Z.neg b)) with (Z.pos b).
    change (a ?= b)%positive with (Z.pos a ?= Z.pos b).
    rewrite <- H.
    by destruct (Zdigits2 (Z.pos a) - 53 ?= Zdigits2 (Z.pos b) - 53).
Qed.

Lemma fltb_integer a b :
  - 2 ^ 53 < a < 2 ^ 53 -> - 2 ^ 53 < b < 2 ^ 53 ->
  fltb (integer a) (integer b) = (a <? b).
Proof.
  intros Ha Hb. unfold fltb, SFltb. rewrite SFcompare_integer by done.
  unfold Z.ltb. by destruct (a ?= b).
Qed.

Lemma fleb_integer a b :
  - 2 ^ 53 < a < 2 ^ 53 -> - 2 ^ 53 < b < 2 ^ 53 ->
  fleb (integer a) (integer b) = (a <=? b).
Proof.
  intros Ha Hb. unfold fleb, SFleb. rewrite SFcompare_integer by done.
  unfold Z.leb. by destruct (a ?= b).
Qed.

Lemma truncate_integer n : - 2 ^ 53 < n < 2 ^ 53 -> truncate (integer n) = Some n.
Proof.
  intros Hn. destruct (decide (n = 0)) as [->|H0]; [done|].
  rewrite integer_nonzero by done. cbn [truncate]. f_equal.
  pose proof (Zdigits2_small (Z.abs n) ltac:(lia)) as Hd. rewrite Zdigits2_abs in Hd.
  assert (0 < 2 ^ (53 - Zdigits2 n)) by (apply Z.pow_pos_nonneg; lia).
  transitivity (cond_Zopp (n <? 0) (Z.abs n)); [|destruct n; simpl; lia].
  f_equal.
  destruct (Zdigits2 n - 53) as [|e|e] eqn:Ee; [| lia |].
  - rewrite Z.shiftl_0_r, Z2Pos.id by nia.
    replace (53 - Zdigits2 n) with 0 by lia. lia.
  - rewrite Z.shiftr_div_pow2, Z2Pos.id by nia.
    replace (53 - Zdigits2 n) with (Z.pos e) by lia.
    apply Z.div_mul. lia.
Qed.


Lemma array_index_integer n : - 2 ^ 53 < n < 2 ^ 53 -> array_index (integer n) = Some n.
Proof.
  intros Hn. unfold array_index. rewrite truncate_integer by done.
  rewrite of_Z_integer by done. unfold SFeqb.
  by rewrite SFcompare_integer, Z.compare_refl by done.
Qed.

(** The loop over numbers and the loop over integers. *)
Lemma for_range_step {A : Type} lo hi (body : Z -> A -> A) s :
  lo < hi -> for_range lo hi body s = for_range (lo + 1) hi body (body lo s).
Proof.
  intros H. unfold for_range.
  rewrite (seqZ_cons lo (hi - lo)) by lia. cbn [foldl].
  do 2 f_equal. lia. 
Qed.

Lemma for_number_exact {A : Type} fuel lo hi (bodyN : float -> A -> option A)
    (bodyZ : Z -> A -> A) s :
  - 2 ^ 53 < lo < 2 ^ 53 -> - 2 ^ 53 < hi < 2 ^ 53 ->
  (forall k s', lo <= k < hi -> bodyN (integer k) s' = Some (bodyZ k s')) ->
  (Z.to_nat (hi - lo) < fuel)%nat ->
  for_number fuel (integer lo) (integer hi) bodyN s = Some (for_range lo hi bodyZ s).
Proof.
  revert lo s. induction fuel as [|fuel IH]; intros lo s Hlo Hhi Hbody Hfuel; [lia|].
  cbn [for_number]. rewrite fltb_integer by done.
  destruct (Z.ltb_spec lo hi) as [Hlt|Hge].
  - rewrite Hbody by lia.
    change one with (integer 1). rewrite fadd_integer by lia.
    rewrite IH; [|lia|done| |lia].
    + by rewrite <- for_range_step.
    + intros k s' Hk. apply Hbody. lia.
  - by rewrite for_range_empty by lia.
Qed.

(** Within [counters_exact] the loops of the source end, after at most
    [2 * rippleSize] rounds each, and leave the state [inject] computes. *)
Lemma inject_numbers_exact fuel p st x y :
  counters_exact p x y ->
  (Z.to_nat (2 * rippleSize p) < fuel)%nat ->
  inject_numbers fuel p st x y = Some (inject p st x y).
Proof.
  intros ([Hx Hy] & Hr & [Hw Hh] & Hsize) Hfuel.
  unfold inject_numbers, inject.
  rewrite !of_Z_integer by lia.
  rewrite !fsub_integer, !fadd_integer by lia.
  apply for_number_exact; [lia|lia| |lia].
  intros j acc Hj.
  apply for_number_exact; [lia|lia| |lia].
  intros k acc' Hk. f_equal.
  change pzero with (integer 0).
  rewrite !fleb_integer, !fltb_integer by lia.
  destruct ((0 <=? j) && (j <? height p) && (0 <=? k) && (k <? width p)) eqn:G; [|done].
  apply andb_prop in G as [G Gk2]. apply andb_prop in G as [G Gk1].
  apply andb_prop in G as [Gj1 Gj2].
  apply Z.leb_le in Gj1, Gk1. apply Z.ltb_lt in Gj2, Gk2.
  assert (j * width p + k < 2 ^ 53) by nia.
  rewrite fmul_integer by nia.
  rewrite fadd_integer by nia.
  by rewrite array_index_integer by nia.
Qed.

(** A counter that [k + 1] rounds back to [k] stays below the bound for
    ever. *)
Lemma for_number_stuck {A : Type} fuel k hi (body : float -> A -> option A) s :
  fltb k hi = true -> fadd k one = k -> body k s = Some s ->
  for_number fuel k hi body s = None.
Proof.
  intros Hlt Hk Hs. induction fuel as [|fuel IH]; [done|].
  cbn [for_number]. by rewrite Hlt, Hs, Hk.
Qed.

(** With a radius of 2^54 and the pointer at (1, 1) the inner loop starts at
    [1 - 2^54], which is [-2^54] as a number, and [-2^54 + 1] is [-2^54]
    again: the handler never returns. *)
Lemma inject_numbers_vast fuel st : inject_numbers fuel vast st 1 1 = None.
Proof.
  unfold inject_numbers.
  destruct fuel as [|fuel]; [done|].
  set (lo := fsub (of_Z 1) (of_Z (rippleSize vast))).
  set (hi := fadd (of_Z 1) (of_Z (rippleSize vast))).
  assert (Hlt : fltb lo hi = true) by (by vm_compute).
  assert (Hk : fadd lo one = lo) by (by vm_compute).
  assert (G : fleb pzero lo = false) by (by vm_compute).
  cbn [for_number]. rewrite Hlt.
  rewrite for_number_stuck; [done|done|done|].
  by rewrite G.
Qed.

(** * The claims *)

(** ** C1: The solver formula *)

(** C1. One solver pass writes, into every interior cell [i] of the scratch
    buffer ([width <= i < width*height - width]), the value
    [((C[i-1] + C[i+1] + C[i-width] + C[i+width]) / s - N[i]) * (1 - viscosity)]
    with [s = Math.max(2.0, speed)], where [C] is the current buffer and [N]
    the scratch buffer before the pass; the cell, being a cell of a
    [Float32Array], holds that number in single precision.  A speed below 2.0
    is replaced by 2.0. *)
Theorem solve_interior_formula (p : props) (st : store) (i : Z) :
  wf p st ->
  0 <= width p ->
  width p <= i <= width p * height p - width p - 1 ->
  let C := f32_read st (buffer1 st) in
  let N := f32_read st (buffer2 st) in
  let effectiveSpeed := Math_max two (speed p) in
  f32_read (solve p st) (buffer2 st) i
  = fround
      (fmul
         (fsub
            (fdiv
               (fadd (fadd (fadd (C (i - 1)) (C (i + 1))) (C (i - width p)))
                  (C (i + width p)))
               effectiveSpeed)
            (N i))
         (fsub one (viscosity p)))
  /\ (fltb (speed p) two = true -> effectiveSpeed = two).
Proof.
  intros Hwf Hw Hi C N s. split.
  - rewrite solve_inside by (done || lia). reflexivity.
  - apply Math_max_two_below.
Qed.

Lemma solve_interior_formula_witness :
  wf grid4 grid4_disturbed /\
  0 <= width grid4 /\
  width grid4 <= 5 <= width grid4 * height grid4 - width grid4 - 1 /\
  f32_read (solve grid4 grid4_disturbed) (buffer2 grid4_disturbed) 5
  = fround (wave grid4 grid4_disturbed (buffer1 grid4_disturbed)
              (buffer2 grid4_disturbed) 5).
Proof.
  assert (Hw : 0 <= width grid4) by (simpl; lia).
  assert (Hi : width grid4 <= 5 <= width grid4 * height grid4 - width grid4 - 1)
    by (simpl; lia).
  split; [exact grid4_disturbed_wf|]. split; [exact Hw|]. split; [exact Hi|].
  exact (proj1 (solve_interior_formula grid4 grid4_disturbed 5
                  grid4_disturbed_wf Hw Hi)).
Defined.

(** One pass over [grid4_disturbed]: cell 6, next to the disturbance, goes
    from 0 to (100 + 0 + 0 + 0) / 2 * 0.96 = 48 in single precision. *)
Example solve_grid4_cell6 :
  f32_read (solve grid4 grid4_disturbed) (buffer2 grid4_disturbed) 6
  = fround (fmul (of_Z 50) (fsub one default_viscosity)).
Proof. by vm_compute. Qed.

(** ** C2: The refraction pass *)

(** C2, as the code has it.  For every pixel [i] the offsets are the ToInt32
    conversions of [C[i-1] - C[i+1]] and [C[i-width] - C[i+width]], where [C]
    is the buffer the solver pass has read and a cell outside the buffer makes
    the difference NaN.  The conversion truncates toward zero when the
    integer part of the difference lies in [-2^31, 2^31) and gives 0 for NaN
    and the infinities.  When both offsets are 0 the output RGB at [i] is the
    source RGB at [i], otherwise it is the source RGB at
    [i + xOffset + yOffset*width] clamped to [0, width*height - 1]; the output
    alpha is 255 in both cases. *)
Theorem refraction_pixel (p : props) (st : store) (img : list Z) (i : Z) :
  wf p st ->
  img_ok p img ->
  0 <= i < width p * height p ->
  let C := f32_read st (buffer1 st) in
  let size := width p * height p in
  let output := snd (update p img st) in
  let xo := ToInt32 (fsub (C (i - 1)) (C (i + 1))) in
  let yo := ToInt32 (fsub (C (i - width p)) (C (i + width p))) in
  xOffset st (buffer1 st) i = xo
  /\ yOffset p st (buffer1 st) i = yo
  /\ (forall k, k < 0 \/ size <= k -> C k = NaN)
  /\ (forall d z, truncate d = Some z -> - 2 ^ 31 <= z < 2 ^ 31 -> ToInt32 d = z)
  /\ (forall d, truncate d = None -> ToInt32 d = 0)
  /\ (xo = 0 /\ yo = 0 -> rgb output i = rgb img i)
  /\ (~ (xo = 0 /\ yo = 0) ->
      rgb output i = rgb img (Z.max 0 (Z.min (size - 1) (i + xo + yo * width p))))
  /\ alpha output i = Some 255.
Proof.
  intros Hwf Himg Hi C size output xo yo.
  assert (Hx : xOffset st (buffer1 st) i = xo) by apply tilde_tilde_ToInt32.
  assert (Hy : yOffset p st (buffer1 st) i = yo) by apply tilde_tilde_ToInt32.
  destruct (update_output p img st i Hwf Himg Hi) as [Hrgb Halpha].
  split; [done|]. split; [done|]. split.
  { intros k Hk. apply f32_get_out_of_range.
    rewrite (allocated_length _ _ _ (wf_buffer1 p st Hwf)). lia. }
  split; [apply ToInt32_truncate|]. split; [apply ToInt32_not_finite|].
  subst output. rewrite Hrgb.
  destruct (sampleIndex_cases p st (buffer1 st) i) as [(Hx0 & Hy0 & ->)|[Hnz ->]];
    rewrite Hx, Hy in *; (split; [|split; [|done]]); try done; tauto.
Qed.

Lemma refraction_pixel_witness :
  wf grid4 grid4_disturbed /\
  img_ok grid4 (test_image grid4) /\
  0 <= 1 < width grid4 * height grid4 /\
  alpha (snd (update grid4 (test_image grid4) grid4_disturbed)) 1 = Some 255.
Proof.
  assert (Hi : 0 <= 1 < width grid4 * height grid4) by (simpl; lia).
  split; [exact grid4_disturbed_wf|].
  split; [exact (test_image_ok grid4)|].
  split; [exact Hi|].
  apply (refraction_pixel grid4 grid4_disturbed (test_image grid4) 1
           grid4_disturbed_wf (test_image_ok grid4) Hi).
Defined.

(** The state of the counterexample to C2: the four cells 0, 1, 3 and 4 of
    the current buffer hold 2^31. *)
Example grid3_strong_disturbed_cells :
  array_at grid3_strong_disturbed (buffer1 grid3_strong_disturbed)
  = [of_Z (2 ^ 31); of_Z (2 ^ 31); pzero;
     of_Z (2 ^ 31); of_Z (2 ^ 31); pzero;
     pzero; pzero; pzero].
Proof. by vm_compute. Qed.

(** At pixel 5 the horizontal difference is 2^31: truncation gives 2^31, the
    code computes -2^31, and reads pixel 0 where the specification reads
    pixel 8. *)
Example grid3_strong_offsets :
  truncate (fsub (f32_read grid3_strong_disturbed 1%positive 4)
              (f32_read grid3_strong_disturbed 1%positive 6)) = Some (2 ^ 31)
  /\ xOffset grid3_strong_disturbed 1%positive 5 = - 2 ^ 31
  /\ sampleIndex grid3_strong grid3_strong_disturbed 1%positive 5 = 0
  /\ spec_sampleIndex grid3_strong grid3_strong_disturbed 1%positive 5 = 8.
Proof. by vm_compute. Qed.

(** C2 fails as stated: in [grid3_strong_disturbed] the output RGB at pixel 5
    is not the source RGB at the index displaced by the truncated
    differences. *)
Lemma refraction_offset_not_truncation :
  ~ (rgb (snd (update grid3_strong (test_image grid3_strong) grid3_strong_disturbed)) 5
     = rgb (test_image grid3_strong)
         (spec_sampleIndex grid3_strong grid3_strong_disturbed
            (buffer1 grid3_strong_disturbed) 5)).
Proof. vm_compute. discriminate. Qed.

(** The buffer the pass reads is the one that was current when the frame
    began.  Reading the buffer that is current after the swap would not give
    the output of the code either: in [grid4_disturbed] the buffer written by
    the solver has an all-zero top row, yet pixel 1 is displaced. *)
Example render_reads_previous_buffer :
  let st' := fst (update grid4 (test_image grid4) grid4_disturbed) in
  xOffset st' (buffer1 st') 1 = 0
  /\ yOffset grid4 st' (buffer1 st') 1 = 0
  /\ rgb (snd (update grid4 (test_image grid4) grid4_disturbed)) 1
     = rgb (test_image grid4) 15.
Proof. by vm_compute. Qed.

(** In [grid3_strong_disturbed] the truncated differences of the buffer that
    is current after the swap lead to pixel 8 as well, not to pixel 0. *)
Example grid3_strong_offsets_after_swap :
  let st' := fst (update grid3_strong (test_image grid3_strong) grid3_strong_disturbed) in
  spec_sampleIndex grid3_strong st' (buffer1 st') 5 = 8.
Proof. by vm_compute. Qed.

(** ** C3: Clamped sampling *)

(** C3. For every pixel [i] and every content of the buffers, the index the
    refraction pass reads the source image at lies in [0, width*height - 1]:
    it is [i + xOffset + yOffset*width] when that is a valid index, 0 when it
    is negative and [width*height - 1] when it is too large. *)
Theorem sample_index_clamped (p : props) (st : store) (img : list Z) (i : Z) :
  wf p st ->
  img_ok p img ->
  0 <= i < width p * height p ->
  let c := buffer1 st in
  let size := width p * height p in
  let reload := i + xOffset st c i + yOffset p st c i * width p in
  let read := sampleIndex p st c i in
  rgb (snd (update p img st)) i = rgb img read
  /\ 0 <= read <= size - 1
  /\ (reload < 0 -> read = 0)
  /\ (size - 1 < reload -> read = size - 1)
  /\ (0 <= reload <= size - 1 -> read = reload).
Proof.
  intros Hwf Himg Hi c size reload read.
  split; [by apply update_output|].
  split; [by apply sampleIndex_range|].
  subst reload read size c.
  destruct (sampleIndex_cases p st (buffer1 st) i) as [(Hx & Hy & ->)|[_ ->]];
    [rewrite Hx, Hy|]; repeat split; lia.
Qed.

Lemma sample_index_clamped_witness :
  wf grid4 grid4_disturbed /\
  img_ok grid4 (test_image grid4) /\
  0 <= 1 < width grid4 * height grid4 /\
  rgb (snd (update grid4 (test_image grid4) grid4_disturbed)) 1
  = rgb (test_image grid4) (sampleIndex grid4 grid4_disturbed (buffer1 grid4_disturbed) 1).
Proof.
  assert (Hi : 0 <= 1 < width grid4 * height grid4) by (simpl; lia).
  split; [exact grid4_disturbed_wf|].
  split; [exact (test_image_ok grid4)|].
  split; [exact Hi|].
  exact (proj1 (sample_index_clamped grid4 grid4_disturbed (test_image grid4) 1
                  grid4_disturbed_wf (test_image_ok grid4) Hi)).
Defined.

(** In [grid4_disturbed], pixel 1 is displaced by 100 to the right, off the
    buffer: the pass reads the last pixel. *)
Example sample_index_clamped_high :
  xOffset grid4_disturbed (buffer1 grid4_disturbed) 1 = 100
  /\ yOffset grid4 grid4_disturbed (buffer1 grid4_disturbed) 1 = 0
  /\ sampleIndex grid4 grid4_disturbed (buffer1 grid4_disturbed) 1 = 15.
Proof. by vm_compute. Qed.

(** ** C4: Disturbance locality *)

(** C4, as the code has it.  For a pointer cell [(x, y)] of 32-bit integers,
    a radius [r] of at most 2^52 and a field of fewer than 2^53 cells, the
    two loops of [handleMouseMove] end, and they store the strength into
    exactly the cells [(cx, cy)] of the current buffer with
    [y - r <= cy < y + r] and [x - r <= cx < x + r] that lie in the field;
    each such cell, a [Float32Array] cell, then holds the strength in single
    precision whatever it held before.  Every other cell of the current
    buffer, the whole scratch buffer and the two references are unchanged,
    and a square with no cell in the field changes nothing. *)
Theorem inject_clipped_square (p : props) (st : store) (x y cx cy : Z) (fuel : nat) :
  wf p st ->
  counters_exact p x y ->
  (Z.to_nat (2 * rippleSize p) < fuel)%nat ->
  0 <= cx < width p ->
  0 <= cy < height p ->
  let r := rippleSize p in
  let cell := cy * width p + cx in
  let inside := y - r <= cy < y + r /\ x - r <= cx < x + r in
  inject_numbers fuel p st x y = Some (inject p st x y)
  /\ (inside ->
      f32_read (inject p st x y) (buffer1 st) cell = fround (strength p))
  /\ (~ inside ->
      f32_read (inject p st x y) (buffer1 st) cell = f32_read st (buffer1 st) cell)
  /\ array_at (inject p st x y) (buffer2 st) = array_at st (buffer2 st)
  /\ buffer1 (inject p st x y) = buffer1 st
  /\ buffer2 (inject p st x y) = buffer2 st
  /\ ((forall j k, y - r <= j < y + r -> x - r <= k < x + r ->
                   ~ (0 <= j < height p /\ 0 <= k < width p)) ->
      inject p st x y = st).
Proof.
  intros [Hd H1 H2] Hexact Hfuel Hcx Hcy r cell inside.
  split; [by apply inject_numbers_exact|].
  split; [|split; [|split; [|split; [|split]]]].
  - intros [Hy Hx].
    apply (inject_written p st x y cy cx _ H1); [done..|].
    nia.
  - intros Hout. apply inject_unwritten.
    intros j k Hj Hk Hjr Hkr Heq.
    apply cell_index_inj in Heq as [-> ->]; [|done..].
    by apply Hout.
  - apply inject_other. congruence.
  - apply inject_fields.
  - apply inject_fields.
  - apply inject_no_store.
Qed.

Lemma inject_clipped_square_witness :
  wf grid4 (loaded grid4) /\
  counters_exact grid4 1 1 /\
  (Z.to_nat (2 * rippleSize grid4) < 3)%nat /\
  0 <= 0 < width grid4 /\
  0 <= 0 < height grid4 /\
  inject_numbers 3 grid4 (loaded grid4) 1 1 = Some (inject grid4 (loaded grid4) 1 1) /\
  f32_read (inject grid4 (loaded grid4) 1 1) (buffer1 (loaded grid4)) 0
  = fround (strength grid4).
Proof.
  assert (Hwf : wf grid4 (loaded grid4)) by (apply loaded_wf; simpl; lia).
  assert (He : counters_exact grid4 1 1) by (unfold counters_exact; simpl; lia).
  assert (Hf : (Z.to_nat (2 * rippleSize grid4) < 3)%nat) by (simpl; lia).
  assert (Hx : 0 <= 0 < width grid4) by (simpl; lia).
  assert (Hy : 0 <= 0 < height grid4) by (simpl; lia).
  split; [exact Hwf|]. split; [exact He|]. split; [exact Hf|].
  split; [exact Hx|]. split; [exact Hy|].
  destruct (inject_clipped_square grid4 (loaded grid4) 1 1 0 0 3 Hwf He Hf Hx Hy)
    as (Hret & Hin & _).
  split; [exact Hret|]. apply Hin. simpl. lia.
Defined.

(** The loops of the source at [grid4], run with their binary64 counters:
    they end at the third test of the outer condition, with the four cells
    of the clipped square set. *)
Example inject_numbers_grid4 :
  inject_numbers 2 grid4 (loaded grid4) 1 1 = None
  /\ (fun st' => array_at st' 1%positive) <$> inject_numbers 3 grid4 (loaded grid4) 1 1
     = Some [of_Z 100; of_Z 100; pzero; pzero;
             of_Z 100; of_Z 100; pzero; pzero;
             pzero; pzero; pzero; pzero;
             pzero; pzero; pzero; pzero].
Proof. split; by vm_compute. Qed.

(** C4 fails as stated: with a radius of 2^54 the square around (1, 1)
    covers the whole field, the cell (0, 0) lies in it, and the loops never
    end: no number of rounds brings the handler to return, with that cell
    set or otherwise. *)
Lemma inject_vast_radius_never_returns :
  ~ (in_square vast 1 1 0 0 ->
     exists fuel st',
       inject_numbers fuel vast (loaded vast) 1 1 = Some st'
       /\ f32_read st' (buffer1 (loaded vast)) 0 = fround (strength vast)).
Proof.
  intros H. destruct H as (fuel & st' & H & _); [unfold in_square; simpl; lia|].
  by rewrite inject_numbers_vast in H.
Qed.

(** ** C5: Allocation *)

(** C5, as the code has it.  Whatever the largest length [limit] the engine
    grants: when [width * height] lies between 0 and that length, [create]
    returns two distinct buffers of [width * height] cells, every cell [+0]
    (two empty buffers when the product is zero); when the product is
    negative or above that length, [create] fails with the [RangeError] of
    the array constructor.  There is no other failure. *)
Theorem create_allocates_or_raises (limit : Z) (p : props) :
  (0 <= width p * height p <= limit ->
   exists st,
     create_on limit p = inr st /\
     buffer1 st <> buffer2 st /\
     array_at st (buffer1 st) = replicate (Z.to_nat (width p * height p)) pzero /\
     array_at st (buffer2 st) = replicate (Z.to_nat (width p * height p)) pzero)
  /\ (width p * height p < 0 \/ limit < width p * height p ->
      create_on limit p = inl RangeError).
Proof.
  split.
  - intros H. eexists. split; [by apply create_on_granted|].
    unfold array_at. cbn [arrays buffer1 buffer2].
    split; [done|]. split.
    + rewrite lookup_insert_ne by done. by rewrite lookup_insert_eq.
    + by rewrite lookup_insert_eq.
  - apply create_on_refused.
Qed.

Lemma create_allocates_or_raises_witness :
  0 <= width grid4 * height grid4 <= typical_limit /\
  exists st,
    create_on typical_limit grid4 = inr st /\
    buffer1 st <> buffer2 st /\
    array_at st (buffer1 st) = replicate (Z.to_nat (width grid4 * height grid4)) pzero /\
    array_at st (buffer2 st) = replicate (Z.to_nat (width grid4 * height grid4)) pzero.
Proof.
  assert (H : 0 <= width grid4 * height grid4 <= typical_limit)
    by (unfold typical_limit; simpl; lia).
  split; [exact H|].
  exact (proj1 (create_allocates_or_raises typical_limit grid4) H).
Defined.

(** C5 fails as stated: a field of width 0 has [width * height <= 0], and
    [create] returns two empty buffers instead of failing. *)
Lemma create_zero_area_does_not_fail :
  ~ (width empty_grid * height empty_grid <= 0 ->
     exists e, create_on typical_limit empty_grid = inl e).
Proof.
  intros H. destruct H as [e He]; [simpl; lia|].
  rewrite create_on_granted in He by (unfold typical_limit; simpl; lia).
  discriminate.
Qed.

(** Two negative dimensions have a positive product: [create] allocates. *)
Example create_negative_dimensions :
  exists st,
    create_on typical_limit
      {| width := -2; height := -3; rippleSize := 4; strength := of_Z 512;
         viscosity := default_viscosity; speed := two |} = inr st
    /\ length (array_at st (buffer1 st)) = 6%nat.
Proof. eexists. split; [by vm_compute | by vm_compute]. Qed.

(** A field of 2^20 by 2^20 cells is refused by an engine whose arrays have
    at most 2^32 - 1 cells. *)
Example create_too_large :
  create_on typical_limit
    {| width := 2 ^ 20; height := 2 ^ 20; rippleSize := 4; strength := of_Z 512;
       viscosity := default_viscosity; speed := two |} = inl RangeError.
Proof. apply create_on_refused. right. unfold typical_limit. simpl. lia. Qed.

(** ** C6: Border rows *)

(** C6, as the code has it.  For a pixel [i] of the top or the bottom row the
    vertical offset is 0, because one of the two cells it reads lies outside
    the buffer; the horizontal offset is the ToInt32 conversion of
    [C[i-1] - C[i+1]] as everywhere else, and is 0 at the first and the last
    pixel of the image.  The output RGB at [i] is the source RGB at [i] when
    the horizontal offset is 0, and the source RGB at [i + xOffset] clamped to
    [0, width*height - 1] otherwise; the output alpha is 255. *)
Theorem border_row_pixel (p : props) (st : store) (img : list Z) (i : Z) :
  wf p st ->
  img_ok p img ->
  0 <= i < width p * height p ->
  i < width p \/ width p * height p - width p <= i ->
  let C := f32_read st (buffer1 st) in
  let size := width p * height p in
  let output := snd (update p img st) in
  let xo := xOffset st (buffer1 st) i in
  yOffset p st (buffer1 st) i = 0
  /\ xo = ToInt32 (fsub (C (i - 1)) (C (i + 1)))
  /\ (i = 0 \/ i = size - 1 -> xo = 0)
  /\ (xo = 0 -> rgb output i = rgb img i)
  /\ (xo <> 0 -> rgb output i = rgb img (Z.max 0 (Z.min (size - 1) (i + xo))))
  /\ alpha output i = Some 255.
Proof.
  intros Hwf Himg Hi Hrow C size output xo.
  pose proof (allocated_length _ _ _ (wf_buffer1 p st Hwf)) as Hlen.
  assert (Hout : forall k, k < 0 \/ size <= k -> C k = NaN).
  { intros k Hk. apply f32_get_out_of_range. rewrite Hlen. unfold size in Hk. lia. }
  assert (Hy : yOffset p st (buffer1 st) i = 0).
  { unfold yOffset. rewrite tilde_tilde_ToInt32. fold C.
    destruct Hrow as [Htop|Hbottom].
    - rewrite (Hout (i - width p)) by lia. by rewrite fsub_NaN_l.
    - rewrite (Hout (i + width p)) by (unfold size; lia). by rewrite fsub_NaN_r. }
  assert (Hx : xo = ToInt32 (fsub (C (i - 1)) (C (i + 1))))
    by apply tilde_tilde_ToInt32.
  destruct (update_output p img st i Hwf Himg Hi) as [Hrgb Halpha].
  split; [done|]. split; [done|]. split.
  { rewrite Hx. intros [->| ->].
    - rewrite (Hout (0 - 1)) by lia. by rewrite fsub_NaN_l.
    - rewrite (Hout (size - 1 + 1)) by lia. by rewrite fsub_NaN_r. }
  subst output. rewrite Hrgb.
  destruct (sampleIndex_cases p st (buffer1 st) i) as [(Hx0 & Hy0 & ->)|[Hnz ->]];
    unfold xo in *; rewrite Hy in *.
  - split; [done|]. split; [intros H0; lia | done].
  - split; [intros H0; tauto|]. split; [|done].
    intros _. by rewrite Z.mul_0_l, Z.add_0_r.
Qed.

Lemma border_row_pixel_witness :
  wf grid4 grid4_disturbed /\
  img_ok grid4 (test_image grid4) /\
  0 <= 2 < width grid4 * height grid4 /\
  (2 < width grid4 \/ width grid4 * height grid4 - width grid4 <= 2) /\
  yOffset grid4 grid4_disturbed (buffer1 grid4_disturbed) 2 = 0.
Proof.
  assert (Hi : 0 <= 2 < width grid4 * height grid4) by (simpl; lia).
  assert (Hrow : 2 < width grid4 \/ width grid4 * height grid4 - width grid4 <= 2)
    by (left; simpl; lia).
  split; [exact grid4_disturbed_wf|].
  split; [exact (test_image_ok grid4)|].
  split; [exact Hi|]. split; [exact Hrow|].
  apply (border_row_pixel grid4 grid4_disturbed (test_image grid4) 2
           grid4_disturbed_wf (test_image_ok grid4) Hi Hrow).
Defined.

(** The state of the counterexample to C6: the cells (0,0), (1,0), (0,1) and
    (1,1) of the current buffer hold 100. *)
Example grid4_disturbed_cells :
  array_at grid4_disturbed (buffer1 grid4_disturbed)
  = [of_Z 100; of_Z 100; pzero; pzero;
     of_Z 100; of_Z 100; pzero; pzero;
     pzero; pzero; pzero; pzero;
     pzero; pzero; pzero; pzero].
Proof. by vm_compute. Qed.

(** C6 fails as stated: the output at pixel 2 of the top row of
    [grid4_disturbed] is not the source pixel 2. *)
Lemma border_row_offset_not_zero :
  ~ (rgb (snd (update grid4 (test_image grid4) grid4_disturbed)) 2
     = rgb (test_image grid4) 2).
Proof. vm_compute. discriminate. Qed.

(** There the horizontal offset is 100 and the pass reads the last source
    pixel. *)
Example border_row_pixel_displaced :
  xOffset grid4_disturbed (buffer1 grid4_disturbed) 2 = 100
  /\ rgb (snd (update grid4 (test_image grid4) grid4_disturbed)) 2
     = rgb (test_image grid4) 15
  /\ rgb (test_image grid4) 15 <> rgb (test_image grid4) 2.
Proof. vm_compute. repeat split; done. Qed.

(** ** C7: Repeated stepping *)



(** A field that was never disturbed is all zero from the start. *)
Example undisturbed_sum_is_zero (n : nat) :
  amplitude_sum grid4 (test_image grid4) (loaded grid4) n = pzero.
Proof.
  unfold amplitude_sum. apply sum_abs_zero.
  apply (frames_zero_field grid4); try done.
  - apply loaded_wf. simpl. lia.
  - apply loaded_zero_field. simpl. lia.
Qed.

(** A disturbance in the middle of the field with viscosity 0.5 dies out: the
    amplitudes underflow, and after 314 frames every cell is zero. *)
Example grid4_damped_centre_cells :
  array_at grid4_damped_centre 1%positive
  = [pzero; pzero; pzero; pzero;
     pzero; of_Z 100; of_Z 100; pzero;
     pzero; of_Z 100; of_Z 100; pzero;
     pzero; pzero; pzero; pzero]
  /\ buffer1 grid4_damped_centre = 1%positive.
Proof. by vm_compute. Qed.

Example grid4_damped_dies_out :
  zero_field (frames grid4_damped (test_image grid4_damped) 314 grid4_damped_centre).
Proof. apply zero_field_check. vm_compute. reflexivity. Qed.

(** The undamped column: the top cell of the first buffer holds 512 for
    ever, the middle cell of the second buffer goes 512, 0, 512, 0, ..., and
    the state comes back every four frames. *)
Example column3_disturbed_cells :
  array_at column3_disturbed 1%positive = [of_Z 512; pzero; pzero]
  /\ array_at column3_disturbed 2%positive = [pzero; pzero; pzero]
  /\ buffer1 column3_disturbed = 1%positive.
Proof. by vm_compute. Qed.

Example column3_sums :
  amplitude_sum column3 (test_image column3) column3_disturbed <$> [0; 1; 2; 3; 4]%nat
  = [of_Z 512; of_Z 512; of_Z 512; pzero; of_Z 512].
Proof. by vm_compute. Qed.


(** Summing over both buffers instead of the current one does not help: the
    sum is 512 after the frames 4, 8, 12, ... and 1024 after the next one. *)
Lemma field_sum_not_eventually_decreasing :
  ~ (exists N : nat, forall n : nat, (N <= n)%nat ->
       fleb (field_sum column3 (test_image column3) column3_disturbed (S n))
            (field_sum column3 (test_image column3) column3_disturbed n)
       = true).
Proof.
  intros [N H]. specialize (H (0 + N * 4)%nat ltac:(lia)).
  unfold field_sum in H.
  replace (S (0 + N * 4)) with (1 + N * 4)%nat in H by lia.
  rewrite !frames_add in H.
  rewrite (frames_period _ _ 4 _ N column3_period) in H.
  vm_compute in H. discriminate.
Qed.

Lemma damped_sum_not_eventually_decreasing :
  ~ (exists N : nat, forall n : nat, (N <= n)%nat ->
       fleb (amplitude_sum column3_damped (test_image column3_damped)
               column3_damped_disturbed (S n))
            (amplitude_sum column3_damped (test_image column3_damped)
               column3_damped_disturbed n)
       = true).
Proof.
  intros [N H]. specialize (H (1 + N * 4 + 60)%nat ltac:(lia)).
  unfold amplitude_sum in H.
  replace (S (1 + N * 4 + 60)) with (2 + N * 4 + 60)%nat in H by lia.
  rewrite !frames_add in H.
  rewrite (frames_period _ _ 4 _ N column3_damped_period) in H.
  vm_compute in H. discriminate.
Qed.

(** Damping and an untouched border do not help either.  With the default
    viscosity 0.04 the disturbance in the middle of [column4] never dies out:
    its amplitudes shrink until they are a few multiples of 2^-149, the
    smallest magnitude a [Float32Array] cell holds, and there the product
    with 0.96 rounds back to where it was.  From frame 5180 on the state
    comes back every six frames, and the sum is 16, 24, 8, 16, 24, 8, ...
    times 2^-149. *)
Example column4_disturbed_cells :
  array_at column4_disturbed 1%positive = [pzero; of_Z 100; of_Z 100; pzero]
  /\ array_at column4_disturbed 2%positive = [pzero; pzero; pzero; pzero]
  /\ buffer1 column4_disturbed = 1%positive.
Proof. by vm_compute. Qed.

Lemma column4_settles :
  frames column4 (test_image column4) (Z.to_nat 5180) column4_disturbed
  = column4_settled.
Proof. by vm_compute. Qed.

Lemma column4_period :
  frames column4 (test_image column4) 6 column4_settled = column4_settled.
Proof. by vm_compute. Qed.

Example column4_sums :
  (fun k => sum_abs (array_at (frames column4 (test_image column4) k column4_settled)
                       (buffer1 (frames column4 (test_image column4) k column4_settled))))
    <$> [0; 1; 2; 3]%nat
  = [S754_finite false 4503599627370496 (-197);
     S754_finite false 6755399441055744 (-197);
     S754_finite false 4503599627370496 (-198);
     S754_finite false 4503599627370496 (-197)].
Proof. by vm_compute. Qed.

Lemma interior_sum_not_eventually_decreasing :
  ~ (exists N : nat, forall n : nat, (N <= n)%nat ->
       fleb (amplitude_sum column4 (test_image column4) column4_disturbed (S n))
            (amplitude_sum column4 (test_image column4) column4_disturbed n)
       = true).
Proof.
  intros [N H]. specialize (H (0 + N * 6 + Z.to_nat 5180)%nat ltac:(lia)).
  unfold amplitude_sum in H.
  replace (S (0 + N * 6 + Z.to_nat 5180)) with (1 + N * 6 + Z.to_nat 5180)%nat
    in H by lia.
  rewrite !frames_add in H.
  rewrite column4_settles in H.
  rewrite (frames_period _ _ 6 _ N column4_period) in H.
  vm_compute in H. discriminate.
Qed.

(** ** C8: The swap *)

(** C8. Two swaps in a row restore which buffer is current and which is
    scratch; one swap exchanges the two references and leaves every buffer,
    hence every cell, where it is.  The state [update] leaves is the swap of
    the state after the solver pass. *)
Theorem swap_involution (st : store) :
  swap (swap st) = st
  /\ arrays (swap st) = arrays st
  /\ buffer1 (swap st) = buffer2 st
  /\ buffer2 (swap st) = buffer1 st
  /\ (forall p img, fst (update p img st) = swap (solve p st)).
Proof.
  repeat split; try by destruct st.
  intros p img. apply update_state.
Qed.

(** ** C9: Viscosity 1 *)

(** C9, as the code has it.  With viscosity 1 the damping factor is [+0] and
    nothing is raised.  One pass writes into every interior scratch cell [i]
    the product of [X = (C[i-1] + C[i+1] + C[i-width] + C[i+width]) / s - N[i]]
    and [+0]: a zero when [X] is finite, NaN when [X] is an infinity or NaN.
    [X] is finite, and the cell written a zero, whenever the five cells read
    hold finite values and the speed is not NaN. *)
Theorem viscosity_one_pass (p : props) (st : store) (i : Z) :
  wf p st ->
  0 <= width p ->
  width p <= i <= width p * height p - width p - 1 ->
  viscosity p = one ->
  let C := f32_read st (buffer1 st) in
  let N := f32_read st (buffer2 st) in
  let X :=
    fsub
      (fdiv
         (fadd (fadd (fadd (C (i - 1)) (C (i + 1))) (C (i - width p)))
            (C (i + width p)))
         (Math_max two (speed p)))
      (N i) in
  let written := f32_read (solve p st) (buffer2 st) i in
  fsub one (viscosity p) = pzero
  /\ (is_finite X = true -> is_zero written = true)
  /\ (is_finite X = false -> written = NaN)
  /\ (is_nan (speed p) = false ->
      f32_finite (C (i - 1)) = true -> f32_finite (C (i + 1)) = true ->
      f32_finite (C (i - width p)) = true -> f32_finite (C (i + width p)) = true ->
      f32_finite (N i) = true ->
      is_zero written = true).
Proof.
  intros Hwf Hw Hi Hv C N X written.
  assert (Hd : fsub one (viscosity p) = pzero) by (rewrite Hv; reflexivity).
  assert (Hwr : written = fround (fmul X pzero)).
  { unfold written. rewrite solve_inside by (done || lia).
    unfold wave. by rewrite Hd. }
  assert (Hfin : is_finite X = true -> is_zero written = true).
  { intros HX. rewrite Hwr. by apply fround_zero, fmul_zero_r_finite. }
  split; [done|]. split; [done|]. split.
  - intros HX. rewrite Hwr. unfold pzero. by rewrite fmul_zero_r_not_finite.
  - intros Hs H1 H2 H3 H4 H5. apply Hfin. by apply wave_operand_finite.
Qed.

Lemma viscosity_one_pass_witness :
  wf grid4_viscous (inject grid4_viscous (loaded grid4_viscous) 1 1) /\
  0 <= width grid4_viscous /\
  width grid4_viscous <= 6
    <= width grid4_viscous * height grid4_viscous - width grid4_viscous - 1 /\
  viscosity grid4_viscous = one /\
  fsub one (viscosity grid4_viscous) = pzero.
Proof.
  assert (Hw : 0 <= width grid4_viscous) by (simpl; lia).
  assert (Hi : width grid4_viscous <= 6
               <= width grid4_viscous * height grid4_viscous - width grid4_viscous - 1)
    by (simpl; lia).
  assert (Hv : viscosity grid4_viscous = one) by reflexivity.
  split; [exact grid4_viscous_disturbed_wf|]. split; [exact Hw|].
  split; [exact Hi|]. split; [exact Hv|].
  exact (proj1 (viscosity_one_pass grid4_viscous _ 6
                  grid4_viscous_disturbed_wf Hw Hi Hv)).
Defined.

(** With finite cells the pass writes zeros: cell 6 of the viscous 4x4 field,
    next to a disturbance of 100. *)
Example viscosity_one_finite :
  f32_read (solve grid4_viscous (inject grid4_viscous (loaded grid4_viscous) 1 1))
    2%positive 6 = pzero.
Proof. by vm_compute. Qed.

(** The state of the counterexample to C9: the strength 2^128 is stored in
    single precision as +infinity, in the cells 0, 1, 3 and 4. *)
Example grid3_viscous_disturbed_cells :
  fround (strength grid3_viscous) = S754_infinity false
  /\ array_at grid3_viscous_disturbed (buffer1 grid3_viscous_disturbed)
     = [S754_infinity false; S754_infinity false; pzero;
        S754_infinity false; S754_infinity false; pzero;
        pzero; pzero; pzero]
  /\ array_at grid3_viscous_disturbed (buffer2 grid3_viscous_disturbed)
     = replicate 9 pzero.
Proof. by vm_compute. Qed.

Example grid3_viscous_pass :
  array_at (solve grid3_viscous grid3_viscous_disturbed)
    (buffer2 grid3_viscous_disturbed)
  = [pzero; pzero; pzero; NaN; NaN; NaN; pzero; pzero; pzero].
Proof. by vm_compute. Qed.

(** C9 fails as stated: with viscosity 1, the pass over
    [grid3_viscous_disturbed] writes NaN, not 0, into the interior cell 4,
    whose neighbours hold +infinity. *)
Lemma viscosity_one_writes_nan :
  ~ (is_zero
       (f32_read (solve grid3_viscous grid3_viscous_disturbed)
          (buffer2 grid3_viscous_disturbed) 4) = true).
Proof. vm_compute. discriminate. Qed.

(** ** C10: Radius zero or below *)

(** C10. With a radius of zero or below, neither loop of [inject] runs: the
    state, hence every cell of both buffers, is unchanged, whatever the
    position and the strength, and the handler returns normally. *)
Theorem inject_nonpositive_radius (p : props) (st : store) (x y : Z) :
  rippleSize p <= 0 ->
  inject p st x y = st
  /\ handleMouseMove p (Some st) x y = Some st.
Proof.
  intros Hr.
  assert (H : inject p st x y = st)
    by (unfold inject; apply for_range_empty; lia).
  split; [done|]. simpl. by rewrite H.
Qed.

Lemma inject_nonpositive_radius_witness :
  rippleSize grid4_radius0 <= 0 /\
  inject grid4_radius0 grid4_disturbed 2 3 = grid4_disturbed.
Proof.
  assert (H : rippleSize grid4_radius0 <= 0) by (simpl; lia).
  split; [exact H|].
  exact (proj1 (inject_nonpositive_radius grid4_radius0 grid4_disturbed 2 3 H)).
Defined.

(** * Further properties of the code *)

(** ** The output image *)

Lemma u8_clamp_range v : 0 <= u8_clamp v <= 255.
Proof. destruct v as [b|]; simpl; lia. Qed.

Lemma u8_set_bytes d i v :
  Forall (fun b => 0 <= b <= 255) d -> Forall (fun b => 0 <= b <= 255) (u8_set d i v).
Proof.
  intros Hd. unfold u8_set. destruct (0 <=? i); [|done].
  apply Forall_insert; [done | apply u8_clamp_range].
Qed.

Lemma write_pixel_bytes img output i k :
  Forall (fun b => 0 <= b <= 255) output ->
  Forall (fun b => 0 <= b <= 255) (write_pixel img output i k).
Proof. intros H. unfold write_pixel. by repeat apply u8_set_bytes. Qed.

Lemma render_bytes p st c img :
  length (render p st c img) = Z.to_nat (4 * (Z.abs (width p) * Z.abs (height p)))
  /\ Forall (fun b => 0 <= b <= 255) (render p st c img).
Proof.
  unfold render.
  apply (for_range_invariant
           (fun out =>
              length out = Z.to_nat (4 * (Z.abs (width p) * Z.abs (height p)))
              /\ Forall (fun b => 0 <= b <= 255) out)).
  - intros i out _ [Hlen Hb]. rewrite render_pixel_write. split.
    + by rewrite length_write_pixel.
    + by apply write_pixel_bytes.
  - split; [apply length_createImageData|].
    unfold createImageData. apply Forall_replicate. lia.
Qed.

(** Whatever the source data holds, even data of the wrong length or with
    values that are no bytes, the image a frame produces has four bytes per
    pixel, each in [0, 255]. *)
Theorem update_output_well_formed (p : props) (img : list Z) (st : store) :
  length (snd (update p img st))
  = Z.to_nat (4 * (Z.abs (width p) * Z.abs (height p)))
  /\ Forall (fun b => 0 <= b <= 255) (snd (update p img st)).
Proof. unfold update. cbn [snd]. apply render_bytes. Qed.

(** ** Buffer roles over the frames *)

Lemma update_fields p img st :
  buffer1 (fst (update p img st)) = buffer2 st /\
  buffer2 (fst (update p img st)) = buffer1 st.
Proof. by unfold update. Qed.

(** The two references change places with every frame: after an even number
    of frames they are as at the start, after an odd number exchanged. *)
Theorem frames_roles_alternate (p : props) (img : list Z) (st : store) (n : nat) :
  buffer1 (frames p img n st) = (if Nat.even n then buffer1 st else buffer2 st)
  /\ buffer2 (frames p img n st) = (if Nat.even n then buffer2 st else buffer1 st).
Proof.
  induction n as [|n [IH1 IH2]]; [done|].
  cbn [frames]. destruct (update_fields p img (frames p img n st)) as [-> ->].
  rewrite IH1, IH2, Nat.even_succ, <- Nat.negb_even.
  by destruct (Nat.even n).
Qed.

Lemma update_other p img st l :
  l <> buffer2 st -> array_at (fst (update p img st)) l = array_at st l.
Proof.
  intros Hl. unfold update. cbn [fst assign_buffers array_at arrays].
  change (default [] (arrays (solve p st) !! l)) with (array_at (solve p st) l).
  unfold solve, for_range. by apply solve_pass_other.
Qed.

(** A frame writes into one buffer only, the scratch buffer: the buffer it
    reads, and any other buffer on the heap, is left exactly as it was. *)
Theorem update_writes_scratch_only (p : props) (img : list Z) (st : store) (l : loc) :
  l <> buffer2 st ->
  array_at (fst (update p img st)) l = array_at st l.
Proof. apply update_other. Qed.

Lemma update_writes_scratch_only_witness :
  buffer1 grid4_disturbed <> buffer2 grid4_disturbed /\
  array_at (fst (update grid4 (test_image grid4) grid4_disturbed))
    (buffer1 grid4_disturbed)
  = array_at grid4_disturbed (buffer1 grid4_disturbed).
Proof.
  assert (H : buffer1 grid4_disturbed <> buffer2 grid4_disturbed)
    by (vm_compute; discriminate).
  split; [exact H|].
  exact (update_writes_scratch_only grid4 (test_image grid4) grid4_disturbed _ H).
Defined.

(** ** The border rows *)

Lemma update_border p img st l i :
  ~ interior p i ->
  f32_read (fst (update p img st)) l i = f32_read st l i.
Proof.
  intros Hi. destruct (decide (l = buffer2 st)) as [->|Hl].
  - unfold update. cbn [fst]. unfold f32_read, array_at. cbn [assign_buffers arrays].
    by apply solve_outside.
  - unfold f32_read. by rewrite update_other.
Qed.

Lemma frames_border p img n st l i :
  ~ interior p i ->
  f32_read (frames p img n st) l i = f32_read st l i.
Proof.
  intros Hi. induction n as [|n IH]; [done|].
  cbn [frames]. by rewrite update_border.
Qed.

(** No number of frames changes a cell of the first or the last row, in
    either buffer: the solver loop starts at [width] and stops before
    [width*height - width]. *)
Theorem frames_keep_border_rows (p : props) (img : list Z) (n : nat) (st : store)
    (l : loc) (i : Z) :
  i < width p \/ width p * height p - width p <= i ->
  f32_read (frames p img n st) l i = f32_read st l i.
Proof. intros Hi. apply frames_border. unfold interior. lia. Qed.

Lemma frames_keep_border_rows_witness :
  (1 < width grid4 \/ width grid4 * height grid4 - width grid4 <= 1) /\
  f32_read (frames grid4 (test_image grid4) 7 grid4_disturbed) 1%positive 1
  = f32_read grid4_disturbed 1%positive 1.
Proof.
  assert (H : 1 < width grid4 \/ width grid4 * height grid4 - width grid4 <= 1)
    by (left; simpl; lia).
  split; [exact H|].
  exact (frames_keep_border_rows grid4 (test_image grid4) 7 grid4_disturbed
           1%positive 1 H).
Defined.

(** A disturbance that reaches the first or the last row stays there: for a
    pointer event within [counters_exact] the handler returns, and the cells
    of those rows that it has set hold the strength after any number of
    frames. *)
Theorem border_disturbance_never_decays (p : props) (img : list Z) (st : store)
    (x y cx cy : Z) (n fuel : nat) :
  wf p st ->
  counters_exact p x y ->
  (Z.to_nat (2 * rippleSize p) < fuel)%nat ->
  0 <= cx < width p ->
  0 <= cy < height p ->
  cy = 0 \/ cy = height p - 1 ->
  in_square p x y cx cy ->
  inject_numbers fuel p st x y = Some (inject p st x y)
  /\ f32_read (frames p img n (inject p st x y)) (buffer1 st) (cy * width p + cx)
     = fround (strength p).
Proof.
  intros [Hd H1 H2] Hexact Hfuel Hcx Hcy Hrow [Hy Hx].
  split; [by apply inject_numbers_exact|].
  rewrite frames_border by (unfold interior; nia).
  apply (inject_written p st x y cy cx _ H1); [done..|nia].
Qed.

Lemma border_disturbance_never_decays_witness :
  wf grid4 (loaded grid4) /\
  counters_exact grid4 1 1 /\
  (Z.to_nat (2 * rippleSize grid4) < 3)%nat /\
  0 <= 1 < width grid4 /\
  0 <= 0 < height grid4 /\
  (0 = 0 \/ 0 = height grid4 - 1) /\
  in_square grid4 1 1 1 0 /\
  f32_read (frames grid4 (test_image grid4) 9 (inject grid4 (loaded grid4) 1 1))
    (buffer1 (loaded grid4)) (0 * width grid4 + 1)
  = fround (strength grid4).
Proof.
  assert (Hwf : wf grid4 (loaded grid4)) by (apply loaded_wf; simpl; lia).
  assert (He : counters_exact grid4 1 1) by (unfold counters_exact; simpl; lia).
  assert (Hf : (Z.to_nat (2 * rippleSize grid4) < 3)%nat) by (simpl; lia).
  assert (Hx : 0 <= 1 < width grid4) by (simpl; lia).
  assert (Hy : 0 <= 0 < height grid4) by (simpl; lia).
  assert (Hrow : 0 = 0 \/ 0 = height grid4 - 1) by (left; reflexivity).
  assert (Hsq : in_square grid4 1 1 1 0) by (unfold in_square; simpl; lia).
  split; [exact Hwf|]. split; [exact He|]. split; [exact Hf|].
  split; [exact Hx|]. split; [exact Hy|].
  split; [exact Hrow|]. split; [exact Hsq|].
  exact (proj2 (border_disturbance_never_decays grid4 (test_image grid4) (loaded grid4)
                  1 1 1 0 9 3 Hwf He Hf Hx Hy Hrow Hsq)).
Defined.

(** ** Every state the component can reach *)

Lemma step_wf p img st ev : wf p st -> wf p (step p img st ev).
Proof. intros H. destruct ev; [by apply update_wf | by apply inject_wf]. Qed.

Lemma step_references p img st ev :
  (buffer1 (step p img st ev) = buffer1 st /\ buffer2 (step p img st ev) = buffer2 st)
  \/ (buffer1 (step p img st ev) = buffer2 st /\ buffer2 (step p img st ev) = buffer1 st).
Proof.
  destruct ev as [|x y]; cbn [step].
  - right. apply (update_fields p img st).
  - left. apply (inject_fields p st x y).
Qed.

Lemma run_invariant p img st evs :
  wf p st ->
  wf p (run p img st evs)
  /\ ((buffer1 (run p img st evs) = buffer1 st /\ buffer2 (run p img st evs) = buffer2 st)
      \/ (buffer1 (run p img st evs) = buffer2 st /\ buffer2 (run p img st evs) = buffer1 st)).
Proof.
  unfold run. revert st. induction evs as [|ev evs IH]; intros st Hwf.
  - split; [done|]. by left.
  - cbn [foldl]. destruct (IH _ (step_wf p img st ev Hwf)) as [Hw Hr].
    split; [done|].
    destruct (step_references p img st ev) as [[E1 E2]|[E1 E2]];
      rewrite E1, E2 in Hr; tauto.
Qed.

(** After a successful allocation, whatever frames and pointer events follow
    in whatever order, the state holds the same two distinct buffers, each of
    [width * height] cells: no event resizes a buffer, and the two references
    never come to name the same buffer. *)
Theorem reachable_states_well_formed (p : props) (img : list Z) (st0 : store)
    (evs : list event) :
  create p = inr st0 ->
  let st := run p img st0 evs in
  buffer1 st <> buffer2 st
  /\ length (array_at st (buffer1 st)) = Z.to_nat (width p * height p)
  /\ length (array_at st (buffer2 st)) = Z.to_nat (width p * height p)
  /\ ((buffer1 st = 1%positive /\ buffer2 st = 2%positive)
      \/ (buffer1 st = 2%positive /\ buffer2 st = 1%positive)).
Proof.
  intros Hc st.
  destruct (run_invariant p img st0 evs (create_wf p st0 Hc)) as [[Hd H1 H2] Hr].
  split; [done|].
  split; [by apply allocated_length|]. split; [by apply allocated_length|].
  assert (buffer1 st0 = 1%positive /\ buffer2 st0 = 2%positive) as [E1 E2].
  { destruct (Z.lt_ge_cases (width p * height p) 0) as [Hneg|Hpos].
    - by rewrite create_negative in Hc.
    - rewrite create_nonnegative in Hc by done. by injection Hc as <-. }
  fold st in Hr. rewrite E1, E2 in Hr. exact Hr.
Qed.

Lemma reachable_states_well_formed_witness :
  create grid4 = inr (loaded grid4) /\
  length (array_at (run grid4 (test_image grid4) (loaded grid4)
                      [PointerMove 1 1; Frame; Frame; PointerMove 3 0; Frame])
            1%positive) = 16%nat.
Proof.
  assert (Hc : create grid4 = inr (loaded grid4)) by reflexivity.
  split; [exact Hc|].
  pose proof (reachable_states_well_formed grid4 (test_image grid4) (loaded grid4)
                [PointerMove 1 1; Frame; Frame; PointerMove 3 0; Frame] Hc)
    as (_ & H1 & H2 & [[E1 E2]|[E1 E2]]).
  - rewrite E1 in H1. exact H1.
  - rewrite E2 in H2. exact H2.
Defined.

(** ** A flat field does not distort *)

(** A number minus itself is a zero, or NaN when the number is infinite or
    NaN; its ToInt32 conversion is 0 in every case. *)
Lemma ToInt32_fsub_diag x : ToInt32 (fsub x x) = 0.
Proof.
  destruct x as [[]|[]| |s m e]; try done.
  unfold fsub. cbn [SFsub]. by rewrite Z.sub_diag.
Qed.

Lemma ToInt32_fsub_NaN_l x : ToInt32 (fsub NaN x) = 0.
Proof. by rewrite fsub_NaN_l. Qed.

Lemma ToInt32_fsub_NaN_r x : ToInt32 (fsub x NaN) = 0.
Proof. by rewrite fsub_NaN_r. Qed.

(** In a buffer whose cells all hold [v], a read gives [v] inside the buffer
    and NaN outside. *)
Lemma flat_read st c n v k :
  allocated st c n ->
  (forall j, 0 <= j -> (Z.to_nat j < n)%nat -> f32_read st c j = v) ->
  f32_read st c k = v \/ f32_read st c k = NaN.
Proof.
  intros Hal Hflat.
  destruct (decide (0 <= k /\ (Z.to_nat k < n)%nat)) as [[H0 Hn]|Hout].
  - left. by apply Hflat.
  - right. apply f32_get_out_of_range.
    rewrite (allocated_length _ _ _ Hal). lia.
Qed.

Lemma flat_offset a b v : (a = v \/ a = NaN) -> (b = v \/ b = NaN) ->
  tilde_tilde (fsub a b) = 0.
Proof.
  intros [->| ->] [->| ->]; rewrite tilde_tilde_ToInt32;
    auto using ToInt32_fsub_diag, ToInt32_fsub_NaN_l, ToInt32_fsub_NaN_r.
Qed.

Lemma flat_sampleIndex p st c n v i :
  allocated st c n ->
  (forall j, 0 <= j -> (Z.to_nat j < n)%nat -> f32_read st c j = v) ->
  sampleIndex p st c i = i.
Proof.
  intros Hal Hflat. unfold sampleIndex, xOffset, yOffset.
  rewrite !(flat_offset _ _ v) by (by apply (flat_read _ _ n)). done.
Qed.

(** When every cell of the current buffer holds the same value, whatever the
    value (a number, an infinity or NaN), the frame shows the source image
    itself: every output pixel has the RGB of the source pixel at the same
    place, and alpha 255. *)
Theorem flat_field_shows_source (p : props) (st : store) (img : list Z)
    (v : float) (i : Z) :
  wf p st ->
  img_ok p img ->
  (forall j, 0 <= j < width p * height p -> f32_read st (buffer1 st) j = v) ->
  0 <= i < width p * height p ->
  rgb (snd (update p img st)) i = rgb img i
  /\ alpha (snd (update p img st)) i = Some 255.
Proof.
  intros Hwf Himg Hflat Hi.
  destruct (update_output p img st i Hwf Himg Hi) as [Hrgb Ha].
  split; [|done]. rewrite Hrgb. f_equal.
  apply (flat_sampleIndex p st _ _ v i (wf_buffer1 _ _ Hwf)).
  intros j H0 Hn. apply Hflat. lia.
Qed.

Lemma loaded_reads_zero p j :
  0 <= j < width p * height p -> f32_read (loaded p) (buffer1 (loaded p)) j = pzero.
Proof.
  intros Hj. unfold loaded. rewrite create_nonnegative by lia.
  unfold f32_read, array_at, f32_get. cbn [arrays buffer1].
  rewrite lookup_insert_ne by done. rewrite lookup_insert_eq. simpl.
  destruct (Z.leb_spec 0 j); [|lia].
  rewrite lookup_replicate_2 by lia. done.
Qed.

Lemma flat_field_shows_source_witness :
  wf grid4 (loaded grid4) /\
  img_ok grid4 (test_image grid4) /\
  (forall j, 0 <= j < width grid4 * height grid4 ->
             f32_read (loaded grid4) (buffer1 (loaded grid4)) j = pzero) /\
  0 <= 5 < width grid4 * height grid4 /\
  rgb (snd (update grid4 (test_image grid4) (loaded grid4))) 5
  = rgb (test_image grid4) 5.
Proof.
  assert (Hwf : wf grid4 (loaded grid4)) by (apply loaded_wf; simpl; lia).
  assert (Hi : 0 <= 5 < width grid4 * height grid4) by (simpl; lia).
  split; [exact Hwf|]. split; [exact (test_image_ok grid4)|].
  split; [exact (loaded_reads_zero grid4)|]. split; [exact Hi|].
  exact (proj1 (flat_field_shows_source grid4 (loaded grid4) (test_image grid4)
                  pzero 5 Hwf (test_image_ok grid4) (loaded_reads_zero grid4) Hi)).
Defined.

(** The frame [img.onload] draws right after the allocation shows the source
    image undistorted and opaque, whatever the viscosity and the speed. *)
Theorem onload_first_frame_shows_source (p : props) (img : list Z) (st : store)
    (output : list Z) (i : Z) :
  onload p img = inr (st, output) ->
  img_ok p img ->
  0 <= i < width p * height p ->
  rgb output i = rgb img i /\ alpha output i = Some 255.
Proof.
  unfold onload. intros Hload Himg Hi.
  rewrite create_nonnegative in Hload by lia.
  injection Hload as Hst Hout. rewrite <- Hout.
  pose proof (loaded_wf p ltac:(lia)) as Hwf.
  pose proof (loaded_reads_zero p) as Hz.
  unfold loaded in Hwf, Hz. rewrite create_nonnegative in Hwf, Hz by lia.
  exact (flat_field_shows_source p _ img pzero i Hwf Himg Hz Hi).
Qed.

Lemma onload_first_frame_shows_source_witness :
  onload grid4 (test_image grid4)
  = inr (fst (update grid4 (test_image grid4) (loaded grid4)),
         snd (update grid4 (test_image grid4) (loaded grid4))) /\
  img_ok grid4 (test_image grid4) /\
  0 <= 9 < width grid4 * height grid4 /\
  rgb (snd (update grid4 (test_image grid4) (loaded grid4))) 9
  = rgb (test_image grid4) 9.
Proof.
  assert (Hl : onload grid4 (test_image grid4)
               = inr (fst (update grid4 (test_image grid4) (loaded grid4)),
                      snd (update grid4 (test_image grid4) (loaded grid4)))).
  { unfold onload, loaded. rewrite create_nonnegative by (simpl; lia).
    by destruct (update grid4 (test_image grid4) _). }
  assert (Hi : 0 <= 9 < width grid4 * height grid4) by (simpl; lia).
  split; [exact Hl|]. split; [exact (test_image_ok grid4)|]. split; [exact Hi|].
  exact (proj1 (onload_first_frame_shows_source grid4 (test_image grid4) _ _ 9
                  Hl (test_image_ok grid4) Hi)).
Defined.

(** ** The effective speed *)

Lemma Math_max_above m0 e0 s :
  fleb (S754_finite false m0 e0) s = true ->
  Math_max (S754_finite false m0 e0) s = s.
Proof.
  unfold fleb, SFleb, Math_max.
  destruct s as [sg|sg| |sg m e]; simpl; try done.
  - by destruct sg.
  - destruct sg; [done|].
    destruct (e0 ?= e) eqn:He; try done.
    apply Z.compare_eq in He. subst e.
    destruct (PosDef.Pos.compare_cont Eq m0 m) eqn:Hm; try done.
    apply Pos.compare_eq in Hm. by subst m.
Qed.

Lemma SFcompare_refl_finite m e :
  SFcompare (S754_finite false m e) (S754_finite false m e) = Some Eq.
Proof.
  simpl. rewrite Z.compare_refl.
  change (PosDef.Pos.compare_cont Eq m m) with (Pos.compare m m).
  by rewrite Pos.compare_refl.
Qed.

Lemma Math_max_not_below m0 e0 s :
  is_nan s = false ->
  fleb (S754_finite false m0 e0) (Math_max (S754_finite false m0 e0) s) = true.
Proof.
  intros Hs.
  assert (Hrefl : fleb (S754_finite false m0 e0) (S754_finite false m0 e0) = true)
    by (unfold fleb, SFleb; by rewrite SFcompare_refl_finite).
  destruct s as [sg|sg| |sg m e]; try done.
  - by destruct sg.
  - unfold Math_max, fleb, SFleb in *. simpl in *.
    destruct sg; [done|].
    destruct (e0 ?= e) eqn:He; simpl; rewrite ?He; try done.
    destruct (PosDef.Pos.compare_cont Eq m0 m) eqn:Hm; simpl;
      rewrite ?He, ?Hm; done.
Qed.

(** [Math.max(2.0, speed)] is the speed itself when the speed is 2.0 or more,
    NaN when the speed is NaN, and never below 2.0 otherwise. *)
Theorem effective_speed (s : float) :
  (fleb two s = true -> Math_max two s = s)
  /\ (is_nan s = true -> Math_max two s = NaN)
  /\ (is_nan s = false -> fleb two (Math_max two s) = true).
Proof.
  split; [exact (Math_max_above _ _ s)|]. split.
  - by destruct s.
  - exact (Math_max_not_below _ _ s).
Qed.

Lemma effective_speed_witness :
  fleb two (of_Z 4) = true /\ Math_max two (of_Z 4) = of_Z 4.
Proof.
  assert (H : fleb two (of_Z 4) = true) by reflexivity.
  split; [exact H|].
  exact (proj1 (effective_speed (of_Z 4)) H).
Defined.

(** ** Where NaN comes from *)

Lemma shr_fexp_nonneg pr em m e l :
  0 <= m -> 0 <= shr_m (fst (shr_fexp pr em m e l)).
Proof.
  intros Hm. unfold shr_fexp.
  destruct (shr_spec (shr_record_of_loc m l) e
              (fexp pr em (Zdigits2 m + e) - e)) as [_ Hq];
    [rewrite shr_m_of_loc; lia|].
  rewrite Hq, shr_m_of_loc. apply Z.div_pos; [done|].
  apply Z.pow_pos_nonneg; lia.
Qed.

(** Rounding a non-negative mantissa never gives NaN, in any format. *)
Lemma binary_round_aux_not_nan pr em sx mx ex lx :
  0 <= mx -> is_nan (binary_round_aux pr em sx mx ex lx) = false.
Proof.
  intros Hm. unfold binary_round_aux.
  pose proof (shr_fexp_nonneg pr em mx ex lx Hm) as H1.
  destruct (shr_fexp pr em mx ex lx) as [mrs' e']. cbn [fst] in H1.
  pose proof (round_nearest_even_bounds (shr_m mrs') (loc_of_shr_record mrs')) as Hr.
  pose proof (shr_fexp_nonneg pr em
                (round_nearest_even (shr_m mrs') (loc_of_shr_record mrs')) e'
                loc_Exact ltac:(lia)) as H2.
  destruct (shr_fexp pr em _ e' loc_Exact) as [mrs'' e'']. cbn [fst] in H2.
  destruct (shr_m mrs'') as [|m''|m'']; [done| |lia].
  by destruct (e'' <=? em - pr).
Qed.

Lemma binary_normalize_not_nan pr em m e s :
  is_nan (binary_normalize pr em m e s) = false.
Proof.
  destruct m as [|q|q]; [done| |]; unfold binary_normalize, binary_round;
    destruct (shl_align q e _) as [mz ez]; by apply binary_round_aux_not_nan.
Qed.

(** The single-precision store turns no number into NaN. *)
Lemma fround_not_nan x : is_nan (fround x) = is_nan x.
Proof.
  destruct x as [| | |s m e]; try done. unfold fround.
  pose proof (binary_normalize_not_nan 24 128 (cond_Zopp s (Z.pos m)) e s) as H.
  destruct (binary_normalize 24 128 (cond_Zopp s (Z.pos m)) e s); try done.
  apply binary_normalize_not_nan.
Qed.

(** The product of two finite numbers may overflow, but is never NaN. *)
Lemma fmul_finite_not_nan x y :
  is_finite x = true -> is_finite y = true -> is_nan (fmul x y) = false.
Proof.
  intros Hx Hy. destruct x as [| | |sx mx ex], y as [| | |sy my ey]; try done.
  unfold fmul. cbn [SFmul]. by apply binary_round_aux_not_nan.
Qed.

(** One pass writes no NaN into an interior cell whose four neighbours and
    own previous value are finite, for every viscosity in [0, 1) and every
    speed other than NaN: NaN can only come from a cell that already holds an
    infinity or NaN, or from the configuration. *)
Theorem solve_writes_no_nan (p : props) (st : store) (i : Z) :
  wf p st ->
  0 <= width p ->
  width p <= i <= width p * height p - width p - 1 ->
  is_nan (speed p) = false ->
  is_binary64 (viscosity p) = true ->
  fleb pzero (viscosity p) = true ->
  fltb (viscosity p) one = true ->
  f32_finite (f32_read st (buffer1 st) (i - 1)) = true ->
  f32_finite (f32_read st (buffer1 st) (i + 1)) = true ->
  f32_finite (f32_read st (buffer1 st) (i - width p)) = true ->
  f32_finite (f32_read st (buffer1 st) (i + width p)) = true ->
  f32_finite (f32_read st (buffer2 st) i) = true ->
  is_nan (f32_read (solve p st) (buffer2 st) i) = false.
Proof.
  intros Hwf Hw Hi Hs Hv H0 H1 C1 C2 C3 C4 CN.
  rewrite solve_inside by (done || lia).
  rewrite fround_not_nan. unfold wave.
  apply fmul_finite_not_nan.
  - by apply wave_operand_finite.
  - by apply damping_finite.
Qed.

Lemma solve_writes_no_nan_witness :
  is_nan (f32_read (solve grid4 grid4_disturbed) (buffer2 grid4_disturbed) 6) = false.
Proof.
  assert (Hw : 0 <= width grid4) by (simpl; lia).
  assert (Hi : width grid4 <= 6 <= width grid4 * height grid4 - width grid4 - 1)
    by (simpl; lia).
  apply (solve_writes_no_nan grid4 grid4_disturbed 6 grid4_disturbed_wf Hw Hi);
    reflexivity.
Defined.

Lemma fdiv_NaN_r x : fdiv x NaN = NaN.
Proof. by destruct x. Qed.

Lemma fmul_NaN_l x : fmul NaN x = NaN.
Proof. done. Qed.

Lemma fmul_NaN_r x : fmul x NaN = NaN.
Proof. by destruct x. Qed.

(** A speed or a viscosity that is NaN is not rejected: one pass then writes
    NaN into every interior cell of the scratch buffer, whatever the cells
    held. *)
Theorem solve_nan_configuration (p : props) (st : store) (i : Z) :
  wf p st ->
  0 <= width p ->
  width p <= i <= width p * height p - width p - 1 ->
  is_nan (speed p) = true \/ is_nan (viscosity p) = true ->
  f32_read (solve p st) (buffer2 st) i = NaN.
Proof.
  intros Hwf Hw Hi Hnan.
  rewrite solve_inside by (done || lia). unfold wave.
  destruct Hnan as [Hs|Hv].
  - destruct (speed p); try done.
    change (Math_max two S754_nan) with NaN.
    by rewrite fdiv_NaN_r, fsub_NaN_l, fmul_NaN_l.
  - destruct (viscosity p); try done.
    change (fsub one S754_nan) with NaN. by rewrite fmul_NaN_r.
Qed.

Lemma solve_nan_configuration_witness :
  wf grid4_nan_speed (loaded grid4_nan_speed) /\
  0 <= width grid4_nan_speed /\
  width grid4_nan_speed <= 5
    <= width grid4_nan_speed * height grid4_nan_speed - width grid4_nan_speed - 1 /\
  (is_nan (speed grid4_nan_speed) = true \/ is_nan (viscosity grid4_nan_speed) = true) /\
  f32_read (solve grid4_nan_speed (loaded grid4_nan_speed))
    (buffer2 (loaded grid4_nan_speed)) 5 = NaN.
Proof.
  assert (Hwf : wf grid4_nan_speed (loaded grid4_nan_speed))
    by (apply loaded_wf; simpl; lia).
  assert (Hw : 0 <= width grid4_nan_speed) by (simpl; lia).
  assert (Hi : width grid4_nan_speed <= 5
               <= width grid4_nan_speed * height grid4_nan_speed
                  - width grid4_nan_speed - 1) by (simpl; lia).
  assert (Hn : is_nan (speed grid4_nan_speed) = true
               \/ is_nan (viscosity grid4_nan_speed) = true) by (left; reflexivity).
  split; [exact Hwf|]. split; [exact Hw|]. split; [exact Hi|]. split; [exact Hn|].
  exact (solve_nan_configuration grid4_nan_speed (loaded grid4_nan_speed) 5
           Hwf Hw Hi Hn).
Defined.

(** ** How far a disturbance travels in one frame *)

(** An interior cell whose four neighbours in the current buffer and whose
    own scratch value are zeros receives a zero: in one pass a disturbance
    reaches no cell other than those at index distance 1 or [width] from a
    cell that is not zero. *)
Theorem solve_is_local (p : props) (st : store) (i : Z) :
  wf p st ->
  0 <= width p ->
  width p <= i <= width p * height p - width p - 1 ->
  is_nan (speed p) = false ->
  is_binary64 (viscosity p) = true ->
  fleb pzero (viscosity p) = true ->
  fltb (viscosity p) one = true ->
  is_zero (f32_read st (buffer1 st) (i - 1)) = true ->
  is_zero (f32_read st (buffer1 st) (i + 1)) = true ->
  is_zero (f32_read st (buffer1 st) (i - width p)) = true ->
  is_zero (f32_read st (buffer1 st) (i + width p)) = true ->
  is_zero (f32_read st (buffer2 st) i) = true ->
  is_zero (f32_read (solve p st) (buffer2 st) i) = true.
Proof.
  intros Hwf Hw Hi Hs Hv H0 H1 C1 C2 C3 C4 CN.
  rewrite solve_inside by (done || lia).
  apply fround_zero, wave_zero; try done.
  by apply damping_finite.
Qed.

(** In [grid4_disturbed] the cell 10 is two steps away from the disturbance. *)
Lemma solve_is_local_witness :
  is_zero (f32_read (solve grid4 grid4_disturbed) (buffer2 grid4_disturbed) 10) = true.
Proof.
  assert (Hw : 0 <= width grid4) by (simpl; lia).
  assert (Hi : width grid4 <= 10 <= width grid4 * height grid4 - width grid4 - 1)
    by (simpl; lia).
  apply (solve_is_local grid4 grid4_disturbed 10 grid4_disturbed_wf Hw Hi);
    reflexivity.
Defined.

(** ** The index arithmetic of the refraction loop *)

Lemma tilde_tilde_range x : - 2 ^ 31 <= tilde_tilde x < 2 ^ 31.
Proof.
  rewrite tilde_tilde_ToInt32. unfold ToInt32.
  destruct (truncate x); [apply wrap32_range | lia].
Qed.

(** Both offsets are 32-bit integers, so for a field of at most 2^20 by 2^20
    cells the displaced index [i + xOffset + yOffset*width] has a magnitude
    below 2^53: it is computed without rounding. *)
Theorem reload_is_exact (p : props) (st : store) (c : loc) (i : Z) :
  0 < width p <= 2 ^ 20 ->
  0 < height p <= 2 ^ 20 ->
  0 <= i < width p * height p ->
  - 2 ^ 31 <= xOffset st c i < 2 ^ 31
  /\ - 2 ^ 31 <= yOffset p st c i < 2 ^ 31
  /\ - 2 ^ 53 < i + xOffset st c i + yOffset p st c i * width p < 2 ^ 53.
Proof.
  intros Hw Hh Hi.
  pose proof (tilde_tilde_range
                (fsub (f32_read st c (i - 1)) (f32_read st c (i + 1)))) as Hx.
  pose proof (tilde_tilde_range
                (fsub (f32_read st c (i - width p)) (f32_read st c (i + width p)))) as Hy.
  fold (xOffset st c i) in Hx. fold (yOffset p st c i) in Hy.
  split; [done|]. split; [done|].
  change (2 ^ 31) with 2147483648 in *. change (2 ^ 20) with 1048576 in *.
  change (2 ^ 53) with 9007199254740992.
  assert (width p * height p <= 1048576 * 1048576) by nia.
  assert (- (2147483648 * 1048576) <= yOffset p st c i * width p
          <= 2147483648 * 1048576) by nia.
  lia.
Qed.

Lemma reload_is_exact_witness :
  0 < width grid4 <= 2 ^ 20 /\
  0 < height grid4 <= 2 ^ 20 /\
  0 <= 1 < width grid4 * height grid4 /\
  - 2 ^ 31 <= xOffset grid4_disturbed 1%positive 1 < 2 ^ 31.
Proof.
  assert (Hw : 0 < width grid4 <= 2 ^ 20) by (simpl; lia).
  assert (Hh : 0 < height grid4 <= 2 ^ 20) by (simpl; lia).
  assert (Hi : 0 <= 1 < width grid4 * height grid4) by (simpl; lia).
  split; [exact Hw|]. split; [exact Hh|]. split; [exact Hi|].
  exact (proj1 (reload_is_exact grid4 grid4_disturbed 1%positive 1 Hw Hh Hi)).
Defined.

(** ** Pointer events one after the other *)

(** Two pointer events within [counters_exact], possibly with another
    radius and strength for the second (these properties may change while
    the buffers stay): both handlers return, and then a cell of the second
    square holds the second strength, a cell of the first square only holds
    the first strength, every other cell is unchanged.  The last write wins;
    nothing is added up. *)
Theorem inject_last_write_wins (p1 p2 : props) (st : store)
    (x1 y1 x2 y2 cx cy : Z) (fuel1 fuel2 : nat) :
  wf p1 st ->
  width p2 = width p1 ->
  height p2 = height p1 ->
  counters_exact p1 x1 y1 ->
  counters_exact p2 x2 y2 ->
  (Z.to_nat (2 * rippleSize p1) < fuel1)%nat ->
  (Z.to_nat (2 * rippleSize p2) < fuel2)%nat ->
  0 <= cx < width p1 ->
  0 <= cy < height p1 ->
  let cell := cy * width p1 + cx in
  let st' := inject p2 (inject p1 st x1 y1) x2 y2 in
  (inject_numbers fuel1 p1 st x1 y1 ≫= fun st1 => inject_numbers fuel2 p2 st1 x2 y2)
  = Some st'
  /\ (in_square p2 x2 y2 cx cy ->
      f32_read st' (buffer1 st) cell = fround (strength p2))
  /\ (~ in_square p2 x2 y2 cx cy -> in_square p1 x1 y1 cx cy ->
      f32_read st' (buffer1 st) cell = fround (strength p1))
  /\ (~ in_square p2 x2 y2 cx cy -> ~ in_square p1 x1 y1 cx cy ->
      f32_read st' (buffer1 st) cell = f32_read st (buffer1 st) cell).
Proof.
  intros Hwf Ew Eh Hexact1 Hexact2 Hfuel1 Hfuel2 Hcx Hcy cell st'.
  split.
  { rewrite (inject_numbers_exact fuel1 p1 st x1 y1) by done. cbn [mbind option_bind].
    by rewrite inject_numbers_exact. }
  pose proof (inject_wf p1 st x1 y1 Hwf) as Hwf1.
  destruct (inject_fields p1 st x1 y1) as [E1 _].
  pose proof (wf_buffer1 _ _ Hwf) as Hal.
  pose proof (wf_buffer1 _ _ Hwf1) as Hal1. rewrite E1 in Hal1.
  assert (Hfirst : in_square p1 x1 y1 cx cy ->
            f32_read (inject p1 st x1 y1) (buffer1 st) cell = fround (strength p1)).
  { intros [Hy Hx]. apply (inject_written p1 st x1 y1 cy cx _ Hal); [done..|].
    unfold cell. nia. }
  assert (Hnot1 : ~ in_square p1 x1 y1 cx cy ->
            f32_read (inject p1 st x1 y1) (buffer1 st) cell
            = f32_read st (buffer1 st) cell).
  { intros Hout. apply inject_unwritten. intros j k Hj Hk Hjr Hkr Heq.
    apply cell_index_inj in Heq as [-> ->]; [|done..]. by apply Hout. }
  assert (Hnot2 : ~ in_square p2 x2 y2 cx cy ->
            f32_read st' (buffer1 st) cell
            = f32_read (inject p1 st x1 y1) (buffer1 st) cell).
  { intros Hout. unfold st'. rewrite <- E1.
    apply inject_unwritten. intros j k Hj Hk Hjr Hkr Heq.
    unfold cell in Heq. rewrite Ew in *. rewrite Eh in *.
    apply cell_index_inj in Heq as [-> ->]; [|done..]. by apply Hout. }
  split; [|split].
  - intros [Hy Hx]. unfold st', cell. rewrite <- E1, <- Ew.
    apply (inject_written p2 (inject p1 st x1 y1) x2 y2 cy cx
             (Z.to_nat (width p1 * height p1))); try (rewrite ?Ew, ?Eh; done).
    + by rewrite E1.
    + rewrite Ew. nia.
  - intros H2 H1. by rewrite Hnot2, Hfirst.
  - intros H2 H1. by rewrite Hnot2, Hnot1.
Qed.

Lemma inject_last_write_wins_witness :
  wf grid4 (loaded grid4) /\
  width grid4_stronger = width grid4 /\
  height grid4_stronger = height grid4 /\
  counters_exact grid4 1 1 /\
  counters_exact grid4_stronger 2 2 /\
  (Z.to_nat (2 * rippleSize grid4) < 3)%nat /\
  (Z.to_nat (2 * rippleSize grid4_stronger) < 5)%nat /\
  0 <= 1 < width grid4 /\
  0 <= 1 < height grid4 /\
  in_square grid4_stronger 2 2 1 1 /\
  f32_read (inject grid4_stronger (inject grid4 (loaded grid4) 1 1) 2 2)
    (buffer1 (loaded grid4)) (1 * width grid4 + 1)
  = fround (strength grid4_stronger).
Proof.
  assert (Hwf : wf grid4 (loaded grid4)) by (apply loaded_wf; simpl; lia).
  assert (Ew : width grid4_stronger = width grid4) by reflexivity.
  assert (Eh : height grid4_stronger = height grid4) by reflexivity.
  assert (He1 : counters_exact grid4 1 1) by (unfold counters_exact; simpl; lia).
  assert (He2 : counters_exact grid4_stronger 2 2)
    by (unfold counters_exact; simpl; lia).
  assert (Hf1 : (Z.to_nat (2 * rippleSize grid4) < 3)%nat) by (simpl; lia).
  assert (Hf2 : (Z.to_nat (2 * rippleSize grid4_stronger) < 5)%nat) by (simpl; lia).
  assert (Hx : 0 <= 1 < width grid4) by (simpl; lia).
  assert (Hy : 0 <= 1 < height grid4) by (simpl; lia).
  assert (Hsq : in_square grid4_stronger 2 2 1 1) by (unfold in_square; simpl; lia).
  split; [exact Hwf|]. split; [exact Ew|]. split; [exact Eh|].
  split; [exact He1|]. split; [exact He2|]. split; [exact Hf1|]. split; [exact Hf2|].
  split; [exact Hx|]. split; [exact Hy|]. split; [exact Hsq|].
  exact (proj1 (proj2 (inject_last_write_wins grid4 grid4_stronger (loaded grid4)
                         1 1 2 2 1 1 3 5 Hwf Ew Eh He1 He2 Hf1 Hf2 Hx Hy)) Hsq).
Defined.

(** ** From the pointer event to a cell *)

Lemma fdiv_zero_r_not_finite a sz : is_finite (fdiv a (S754_zero sz)) = false.
Proof. by destruct a. Qed.

Lemma fmul_not_finite_r a b : is_finite b = false -> is_finite (fmul a b) = false.
Proof. destruct a, b; done. Qed.

Lemma fmul_not_finite_l a b : is_finite a = false -> is_finite (fmul a b) = false.
Proof. destruct a, b; done. Qed.

Lemma fsub_not_finite_l a b : is_nan a = true -> is_finite (fsub a b) = false.
Proof. by destruct a. Qed.

Lemma tilde_tilde_not_finite x : is_finite x = false -> tilde_tilde x = 0.
Proof. intros H. rewrite tilde_tilde_ToInt32. by destruct x. Qed.

(** The column computed from a pointer event is a 32-bit integer.  It is 0,
    whatever the pointer position, when the layout rectangle has no width
    (the scale is then an infinity or NaN) and when the position is NaN. *)
Theorem pointer_x_edge_cases (p : props) (rect : DOMRect) (e : MouseEvent) :
  - 2 ^ 31 <= pointer_x p rect e < 2 ^ 31
  /\ (is_zero (rect_width rect) = true -> pointer_x p rect e = 0)
  /\ (is_nan (clientX e) = true -> pointer_x p rect e = 0).
Proof.
  split; [apply tilde_tilde_range|]. unfold pointer_x. split.
  - intros Hz. apply tilde_tilde_not_finite, fmul_not_finite_r.
    destruct (rect_width rect); try done. apply fdiv_zero_r_not_finite.
  - intros Hn. apply tilde_tilde_not_finite, fmul_not_finite_l.
    by apply fsub_not_finite_l.
Qed.

Lemma pointer_x_edge_cases_witness :
  is_zero (rect_width collapsed_rect) = true /\
  pointer_x grid4 collapsed_rect pointer_event = 0.
Proof.
  assert (H : is_zero (rect_width collapsed_rect) = true) by reflexivity.
  split; [exact H|].
  exact (proj1 (proj2 (pointer_x_edge_cases grid4 collapsed_rect pointer_event)) H).
Defined.

(** ** What the drawn image depends on *)

Lemma sampleIndex_ext_props p p' st st' c c' i :
  width p' = width p ->
  height p' = height p ->
  array_at st' c' = array_at st c ->
  sampleIndex p' st' c' i = sampleIndex p st c i.
Proof.
  intros Ew Eh H. unfold sampleIndex, xOffset, yOffset, f32_read.
  by rewrite H, Ew, Eh.
Qed.

Lemma render_pass_ext p p' st st' c c' img img' l output :
  width p' = width p ->
  height p' = height p ->
  array_at st' c' = array_at st c ->
  (forall k, u8_get img (k * 4) = u8_get img' (k * 4)
             /\ u8_get img (k * 4 + 1) = u8_get img' (k * 4 + 1)
             /\ u8_get img (k * 4 + 2) = u8_get img' (k * 4 + 2)) ->
  render_pass p st c img l output = render_pass p' st' c' img' l output.
Proof.
  intros Ew Eh Hst Himg. revert output.
  induction l as [|i l IH]; intros output; [done|].
  change (render_pass p st c img (i :: l) output)
    with (render_pass p st c img l (render_pixel p st c img i output)).
  change (render_pass p' st' c' img' (i :: l) output)
    with (render_pass p' st' c' img' l (render_pixel p' st' c' img' i output)).
  rewrite IH. f_equal.
  rewrite !render_pixel_write, (sampleIndex_ext_props p p' st st' c c' i Ew Eh Hst).
  unfold write_pixel.
  destruct (Himg (sampleIndex p st c i)) as (-> & -> & ->). done.
Qed.

Lemma render_ext p p' st st' c c' img :
  width p' = width p ->
  height p' = height p ->
  array_at st' c' = array_at st c ->
  render p' st' c' img = render p st c img.
Proof.
  intros Ew Eh Hst. unfold render, for_range. rewrite Ew, Eh.
  symmetry. by apply render_pass_ext.
Qed.

(** The image a frame draws is the refraction of the field as it was before
    the frame's own solver pass: the result of that pass is not visible
    before the next frame.  So the viscosity, the speed and the scratch
    buffer have no influence on the image of this frame: a frame run with
    any other properties of the same width and height, on any other state
    whose current buffer holds the same cells, draws the same image. *)
Theorem update_draws_previous_field (p p' : props) (img : list Z) (st st' : store) :
  buffer1 st <> buffer2 st ->
  buffer1 st' <> buffer2 st' ->
  width p' = width p ->
  height p' = height p ->
  array_at st' (buffer1 st') = array_at st (buffer1 st) ->
  snd (update p img st) = render p st (buffer1 st) img
  /\ snd (update p' img st') = snd (update p img st).
Proof.
  intros Hd Hd' Ew Eh Hcur.
  assert (Hown : forall q s, buffer1 s <> buffer2 s ->
            snd (update q img s) = render q s (buffer1 s) img).
  { intros q s Hs. unfold update. cbn [snd].
    apply render_ext; [done..|].
    unfold array_at. cbn [assign_buffers arrays].
    by apply solve_current. }
  split; [by apply Hown|].
  rewrite !Hown by done. by apply render_ext.
Qed.

Lemma update_draws_previous_field_witness :
  buffer1 grid4_disturbed <> buffer2 grid4_disturbed /\
  buffer1 grid4_scratched <> buffer2 grid4_scratched /\
  width grid4_thick = width grid4 /\
  height grid4_thick = height grid4 /\
  array_at grid4_scratched (buffer1 grid4_scratched)
  = array_at grid4_disturbed (buffer1 grid4_disturbed) /\
  snd (update grid4_thick (test_image grid4) grid4_scratched)
  = snd (update grid4 (test_image grid4) grid4_disturbed).
Proof.
  assert (H : buffer1 grid4_disturbed <> buffer2 grid4_disturbed)
    by (vm_compute; discriminate).
  assert (H' : buffer1 grid4_scratched <> buffer2 grid4_scratched)
    by (vm_compute; discriminate).
  assert (Ew : width grid4_thick = width grid4) by reflexivity.
  assert (Eh : height grid4_thick = height grid4) by reflexivity.
  assert (Hc : array_at grid4_scratched (buffer1 grid4_scratched)
               = array_at grid4_disturbed (buffer1 grid4_disturbed))
    by (vm_compute; reflexivity).
  split; [exact H|]. split; [exact H'|]. split; [exact Ew|]. split; [exact Eh|].
  split; [exact Hc|].
  exact (proj2 (update_draws_previous_field grid4 grid4_thick (test_image grid4)
                  grid4_disturbed grid4_scratched H H' Ew Eh Hc)).
Defined.

(** The two frames of the witness draw the same image and leave different
    fields: the cell 5 of the new current buffer depends on the viscosity,
    the speed and the scratch buffer. *)
Example update_fields_differ :
  let st := fst (update grid4 (test_image grid4) grid4_disturbed) in
  let st' := fst (update grid4_thick (test_image grid4) grid4_scratched) in
  f32_read st (buffer1 st) 5 <> f32_read st' (buffer1 st') 5.
Proof. vm_compute. discriminate. Qed.

(** The alpha bytes of the source image are never read: two sources with the
    same red, green and blue bytes give the same output. *)
Theorem update_ignores_source_alpha (p : props) (img img' : list Z) (st : store) :
  (forall k, rgb img k = rgb img' k) ->
  snd (update p img st) = snd (update p img' st).
Proof.
  intros Hrgb. unfold update. cbn [snd]. unfold render, for_range.
  apply render_pass_ext; [done..|].
  intros k. specialize (Hrgb k). unfold rgb in Hrgb.
  by injection Hrgb as -> -> ->.
Qed.

Lemma update_ignores_source_alpha_witness :
  (forall k, rgb pixel_opaque k = rgb pixel_transparent k) /\
  snd (update grid1 pixel_opaque (loaded grid1))
  = snd (update grid1 pixel_transparent (loaded grid1)).
Proof.
  assert (H : forall k, rgb pixel_opaque k = rgb pixel_transparent k).
  { intros k. destruct (decide (k = 0)) as [->|Hk]; [reflexivity|].
    unfold rgb, u8_get, pixel_opaque, pixel_transparent.
    destruct (Z.leb_spec 0 (k * 4)), (Z.leb_spec 0 (k * 4 + 1)),
      (Z.leb_spec 0 (k * 4 + 2)); try lia; try reflexivity.
    rewrite !lookup_ge_None_2 by (simpl; lia). reflexivity. }
  split; [exact H|].
  exact (update_ignores_source_alpha grid1 pixel_opaque pixel_transparent
           (loaded grid1) H).
Defined.

(** ** Numbers: results that are numbers of the format *)

Lemma Zdigits2_div_pow2 m n :
  0 <= n -> 0 < m / 2 ^ n -> Zdigits2 (m / 2 ^ n) = Zdigits2 m - n.
Proof.
  intros Hn Hq. assert (Hp : 0 < 2 ^ n) by (apply Z.pow_pos_nonneg; lia).
  assert (Hm : 0 < m).
  { destruct (Z.le_gt_cases m 0) as [Hle|]; [|done].
    assert (m / 2 ^ n <= 0); [|lia]. apply Z.div_le_upper_bound; lia. }
  rewrite !Zdigits2_pos by done.
  rewrite <- Z.shiftr_div_pow2 in * by done.
  rewrite Z.log2_shiftr by done.
  assert (n <= Z.log2 m); [|lia].
  apply Z.log2_le_pow2; [done|].
  rewrite Z.shiftr_div_pow2 in Hq by done.
  destruct (Z.le_gt_cases (2 ^ n) m) as [|Hlt]; [done|].
  rewrite Z.div_small in Hq by lia. lia.
Qed.

Lemma Zdigits2_mono a b : 0 <= a <= b -> Zdigits2 a <= Zdigits2 b.
Proof.
  intros H. apply Zdigits2_le; [apply Zdigits2_nonneg|].
  pose proof (Zdigits2_bound b). lia.
Qed.

(** Rounding gives a number of the format when the mantissa is not too short
    for its exponent. *)
Lemma binary_round_aux_valid sx mx ex lx :
  0 <= mx ->
  ex <= fexp prec emax (Zdigits2 mx + ex) ->
  valid_binary prec emax (binary_round_aux prec emax sx mx ex lx) = true.
Proof.
  intros Hm Hex. unfold binary_round_aux.
  pose proof (shr_fexp_nonneg prec emax mx ex lx Hm) as H1.
  assert (Hs1 := shr_spec (shr_record_of_loc mx lx) ex
                   (fexp prec emax (Zdigits2 mx + ex) - ex)).
  rewrite shr_m_of_loc in Hs1. specialize (Hs1 Hm). destruct Hs1 as [He1 Hq1].
  unfold shr_fexp in *.
  destruct (shr (shr_record_of_loc mx lx) ex _) as [mrs' e']. cbn [fst snd] in *.
  set (m2 := round_nearest_even (shr_m mrs') (loc_of_shr_record mrs')).
  pose proof (round_nearest_even_bounds (shr_m mrs') (loc_of_shr_record mrs')) as Hr.
  fold m2 in Hr.
  assert (Hm2 : 0 <= m2) by lia.
  assert (Hn2 : e' <= fexp prec emax (Zdigits2 m2 + e')).
  { unfold fexp, emin, prec, emax in *.
    set (D := Zdigits2 mx + ex) in *.
    destruct (Z.le_gt_cases (3 - 1024 - 53) (D - 53)) as [Hnorm|Hsub]; [|lia].
    assert (Hn1 : Z.max (Z.max (D - 53) (3 - 1024 - 53) - ex) 0 = Zdigits2 mx - 53)
      by (unfold D in *; lia).
    rewrite Hn1 in *.
    pose proof (Zdigits2_nonneg mx).
    assert (Hq : 0 < mx / 2 ^ (Zdigits2 mx - 53)).
    { assert (0 < mx) by (destruct mx; simpl in *; lia).
      apply Z.div_str_pos. split; [apply Z.pow_pos_nonneg; lia|].
      etransitivity; [|apply (Zdigits2_lower mx); done].
      apply Z.pow_le_mono_r; lia. }
    pose proof (Zdigits2_div_pow2 mx (Zdigits2 mx - 53) ltac:(lia) Hq) as Hd.
    rewrite <- Hq1 in Hd.
    pose proof (Zdigits2_mono (shr_m mrs') m2 ltac:(lia)). lia. }
  assert (Hs2 := shr_spec (shr_record_of_loc m2 loc_Exact) e'
                   (fexp prec emax (Zdigits2 m2 + e') - e')).
  rewrite shr_m_of_loc in Hs2. specialize (Hs2 Hm2). destruct Hs2 as [He2 Hq2].
  destruct (shr (shr_record_of_loc m2 loc_Exact) e' _) as [mrs'' e''].
  cbn [fst snd] in *.
  destruct (shr_m mrs'') as [|m''|m''] eqn:Em; [done| |done].
  destruct (Z.leb_spec e'' (emax - prec)) as [Hb|Hb]; [|done].
  cbn [valid_binary]. unfold bounded, canonical_mantissa.
  apply andb_true_intro. split; [|by apply Z.leb_le].
  apply Z.eqb_eq.
  change (Z.pos (digits2_pos m'')) with (Zdigits2 (Z.pos m'')).
  rewrite Hq2.
  rewrite Zdigits2_div_pow2 by lia.
  replace (Zdigits2 m2 - Z.max (fexp prec emax (Zdigits2 m2 + e') - e') 0 + e'')
    with (Zdigits2 m2 + e') by lia.
  lia.
Qed.

Lemma binary_round_valid sx mx ex :
  valid_binary prec emax (binary_round prec emax sx mx ex) = true.
Proof.
  unfold binary_round.
  set (t := fexp prec emax (Z.pos (digits2_pos mx) + ex)).
  destruct (shl_align_spec mx ex t) as [He Hm].
  destruct (shl_align mx ex t) as [mz ez]. cbn [fst snd] in *.
  apply binary_round_aux_valid; [lia|].
  rewrite Hm, Zdigits2_mul_pow2 by lia.
  change (Zdigits2 (Z.pos mx)) with (Z.pos (digits2_pos mx)).
  replace (Z.pos (digits2_pos mx) + (ex - Z.min ex t) + ez)
    with (Z.pos (digits2_pos mx) + ex) by lia.
  fold t. lia.
Qed.

Lemma binary_normalize_valid m e s :
  valid_binary prec emax (binary_normalize prec emax m e s) = true.
Proof. destruct m; [done|apply binary_round_valid..]. Qed.

(** The difference of two numbers of the format is a number of the format. *)
Lemma fsub_valid x y :
  is_binary64 x = true -> is_binary64 y = true -> is_binary64 (fsub x y) = true.
Proof.
  unfold is_binary64, fsub. intros Hx Hy.
  destruct x as [sx|sx| |sx mx ex], y as [sy|sy| |sy my ey]; try done.
  - by destruct sx, sy.
  - by destruct sx, sy.
  - cbn [SFsub]. apply binary_normalize_valid.
Qed.

Lemma new_location_zero n : new_location n 0 = loc_Exact.
Proof.
  unfold new_location, new_location_even, new_location_odd.
  by destruct (Z.even n).
Qed.

(** A finite number divided by itself is exactly 1. *)
Lemma fdiv_self s m e : fdiv (S754_finite s m e) (S754_finite s m e) = one.
Proof.
  unfold fdiv. cbn [SFdiv].
  assert (Hcore : SFdiv_core_binary prec emax (Z.pos m) e (Z.pos m) e
                  = (2 ^ 53, -53, loc_Exact)).
  { unfold SFdiv_core_binary.
    rewrite !Z.sub_diag.
    change (Z.min (fexp prec emax 0) 0) with (-53).
    change (0 - -53) with 53.
    rewrite Z.shiftl_mul_pow2 by lia.
    assert (Hq : Z.pos m * 2 ^ 53 / Z.pos m = 2 ^ 53)
      by (rewrite Z.mul_comm; apply Z.div_mul; lia).
    assert (Hr : (Z.pos m * 2 ^ 53) mod Z.pos m = 0)
      by (rewrite Z.mul_comm; apply Z.mod_mul; lia).
    unfold Z.div in Hq. unfold Z.modulo in Hr.
    destruct (Z.div_eucl (Z.pos m * 2 ^ 53) (Z.pos m)) as [q r].
    subst q r. by rewrite new_location_zero. }
  rewrite Hcore. by destruct s.
Qed.

(** A number of the format multiplied by 1 is the number itself. *)
Lemma fmul_one_r a : is_binary64 a = true -> fmul a one = a.
Proof.
  unfold is_binary64. intros Ha.
  destruct a as [[]|[]| |s m e]; try done.
  unfold fmul, one. cbn [SFmul].
  cbn [valid_binary] in Ha. unfold bounded, canonical_mantissa in Ha.
  apply andb_prop in Ha as [Hc Hb]. apply Z.eqb_eq in Hc. apply Z.leb_le in Hb.
  unfold binary_round_aux, shr_fexp.
  rewrite Pos2Z.inj_mul.
  change (Z.pos 4503599627370496) with (2 ^ 52).
  rewrite Zdigits2_mul_pow2 by lia.
  change (Zdigits2 (Z.pos m)) with (Z.pos (digits2_pos m)).
  replace (Z.pos (digits2_pos m) + 52 + (e + -52)) with (Z.pos (digits2_pos m) + e) by lia.
  rewrite Hc. replace (e - (e + -52)) with 52 by lia.
  cbn [shr shr_record_of_loc].
  rewrite (iter_shr_1_exact 52 (Z.pos m)) by lia.
  cbn [shr_m loc_of_shr_record round_nearest_even fst snd].
  change (Zdigits2 (Z.pos m)) with (Z.pos (digits2_pos m)).
  replace (e + -52 + 52) with e by lia.
  rewrite Hc, Z.sub_diag. cbn [shr shr_record_of_loc shr_m].
  destruct (Z.leb_spec e (emax - prec)); [|lia].
  by rewrite xorb_false_r.
Qed.

(** ** The pointer at the natural size of the canvas *)

(** When the canvas is laid out at the size of the field, the scale is
    exactly 1 and the cell is the ToInt32 conversion of the pointer position
    relative to the canvas, which is its truncation toward zero for every
    position on a screen. *)
Theorem pointer_unscaled (p : props) (rect : DOMRect) (e : MouseEvent) :
  is_binary64 (clientX e) = true ->
  is_binary64 (clientY e) = true ->
  is_binary64 (rect_left rect) = true ->
  is_binary64 (rect_top rect) = true ->
  rect_width rect = of_Z (width p) ->
  rect_height rect = of_Z (height p) ->
  is_finite (rect_width rect) = true -> is_zero (rect_width rect) = false ->
  is_finite (rect_height rect) = true -> is_zero (rect_height rect) = false ->
  pointer_x p rect e = ToInt32 (fsub (clientX e) (rect_left rect))
  /\ pointer_y p rect e = ToInt32 (fsub (clientY e) (rect_top rect)).
Proof.
  intros Hx Hy Hl Ht Ew Eh Fw Zw Fh Zh. unfold pointer_x, pointer_y.
  rewrite <- Ew, <- Eh. rewrite !tilde_tilde_ToInt32. split.
  - destruct (rect_width rect) as [| | |s m e0]; try done.
    rewrite fdiv_self, fmul_one_r; [done|by apply fsub_valid].
  - destruct (rect_height rect) as [| | |s m e0]; try done.
    rewrite fdiv_self, fmul_one_r; [done|by apply fsub_valid].
Qed.

Lemma pointer_unscaled_witness :
  pointer_x grid4 natural_rect pointer_event = 2
  /\ pointer_y grid4 natural_rect pointer_event = 3.
Proof.
  destruct (pointer_unscaled grid4 natural_rect pointer_event) as [Hx Hy];
    try reflexivity.
  rewrite Hx, Hy. split; reflexivity.
Defined.
